(** * Verification of the fern-openapi type and auth converters

    Shallow embedding of [src/converters/typeConverter.ts] (type declarations
    and type references to OpenAPI schemas, schema naming) and of the auth
    converter (security requirements and security schemes).

    - JS values are the JSON-like values the converters build; a plain JS
      object is its list of own properties in creation order, with the
      ordinary [[OwnPropertyKeys]] order (array-index keys first, ascending)
      computed by [own_keys].
    - A thrown [Error] is the [Err] branch of the [result] monad.
    - A string is a list of UTF-16 code units in U+0000-U+00FF (Latin-1),
      one [ascii] each; lodash's [camelCase] ([deburr], then the word
      regular expressions of lodash 4) and [upperFirst] are modelled on
      such strings. *)

From Stdlib Require Import Ascii String List Bool Arith Lia NArith.
Import ListNotations.
Open Scope string_scope.
Set Warnings "-register-all".

(** ** Results: a thrown error or a value *)

Inductive result (A : Type) : Type :=
| Ok (a : A)
| Err (msg : string).
Arguments Ok {A} a.
Arguments Err {A} msg.

Definition bind {A B} (m : result A) (f : A -> result B) : result B :=
  match m with
  | Ok a => f a
  | Err e => Err e
  end.

Notation "x <- m ;; k" := (bind m (fun x => k))
  (at level 61, m at next level, right associativity).

(** [Array.prototype.map] with a callback that may throw: the first throw
    aborts the whole map. *)
Fixpoint mapM {A B} (f : A -> result B) (l : list A) : result (list B) :=
  match l with
  | [] => Ok []
  | x :: t => y <- f x;; ys <- mapM f t;; Ok (y :: ys)
  end.

Definition is_ok {A} (r : result A) : bool :=
  match r with Ok _ => true | Err _ => false end.

(** ** JS values and plain objects *)

Inductive jsval : Type :=
| JUndef
| JStr (s : string)
| JArr (xs : list jsval)
| JObj (ps : list (string * jsval)).

Definition jsobj := list (string * jsval).

(** Array indices: canonical decimal strings of an integer below 2^32 - 1. *)
Definition digit_val (c : ascii) : option N :=
  let n := nat_of_ascii c in
  if ((48 <=? n) && (n <=? 57))%nat then Some (N.of_nat (n - 48)%nat) else None.

Fixpoint digits_val (acc : N) (l : list ascii) : option N :=
  match l with
  | [] => Some acc
  | c :: t =>
      match digit_val c with
      | Some d => digits_val (acc * 10 + d)%N t
      | None => None
      end
  end.

Definition array_index (k : string) : option N :=
  match list_ascii_of_string k with
  | [] => None
  | [c] => match digit_val c with
           | Some d => Some d
           | None => None
           end
  | c :: t =>
      if Ascii.eqb c "0" then None
      else match digits_val 0 (c :: t) with
           | Some n => if (n <? 4294967295)%N then Some n else None
           | None => None
           end
  end.

Definition is_array_index (k : string) : bool :=
  match array_index k with Some _ => true | None => false end.

Fixpoint lookup (k : string) (o : jsobj) : option jsval :=
  match o with
  | [] => None
  | (k', v) :: t => if String.eqb k k' then Some v else lookup k t
  end.

(** CreateDataProperty: an existing key keeps its place, a new key is
    appended in creation order. *)
Fixpoint define (o : jsobj) (k : string) (v : jsval) : jsobj :=
  match o with
  | [] => [(k, v)]
  | (k', v') :: t =>
      if String.eqb k k' then (k', v) :: t else (k', v') :: define t k v
  end.

(** Assignment [o[k] = v] on a plain object: the key ["__proto__"] hits the
    inherited accessor of [Object.prototype], which replaces the prototype
    (for an object value) and creates no own property. *)
Definition assign (o : jsobj) (k : string) (v : jsval) : jsobj :=
  if String.eqb k "__proto__" then o else define o k v.

Fixpoint insert_index (n : N) (k : string) (l : list (N * string))
  : list (N * string) :=
  match l with
  | [] => [(n, k)]
  | (m, k') :: t =>
      if (n <? m)%N then (n, k) :: (m, k') :: t
      else (m, k') :: insert_index n k t
  end.

Fixpoint index_keys (o : jsobj) : list (N * string) :=
  match o with
  | [] => []
  | (k, _) :: t =>
      match array_index k with
      | Some n => insert_index n k (index_keys t)
      | None => index_keys t
      end
  end.

(** OrdinaryOwnPropertyKeys: array indices ascending, then the other
    string keys in creation order. *)
Definition own_keys (o : jsobj) : list string :=
  map snd (index_keys o)
  ++ map fst (filter (fun kv => negb (is_array_index (fst kv))) o).

(** The own enumerable entries, in the order [Object.entries],
    [JSON.stringify] and object spread see them. *)
Definition entries (o : jsobj) : list (string * jsval) :=
  flat_map (fun k => match lookup k o with
                     | Some v => [(k, v)]
                     | None => []
                     end) (own_keys o).

(** Object spread [{...o}]: copies the entries into a fresh object. *)
Definition spread (o : jsobj) : jsobj :=
  fold_left (fun acc kv => define acc (fst kv) (snd kv)) (entries o) [].

(** ** lodash: [camelCase] and [upperFirst]

    Character classes of lodash 4.  [camelCase] first deburrs its input,
    which replaces every Latin-1 letter (U+00C0-U+00FF but the signs U+00D7
    and U+00F7) by ASCII letters; the characters above U+007F that are left
    (U+0080-U+00BF, U+00D7, U+00F7) all lie in lodash's [rsBreakRange], and
    so does every ASCII character that is not a letter or a digit. *)

Definition in_range (lo hi : nat) (c : ascii) : bool :=
  ((lo <=? nat_of_ascii c) && (nat_of_ascii c <=? hi))%nat.

Definition is_upper := in_range 65 90.
Definition is_lower := in_range 97 122.
Definition is_digit := in_range 48 57.
Definition is_alnum (c : ascii) := is_upper c || is_lower c || is_digit c.
(** [rsBreak]: on ASCII every character that is not a letter or a digit. *)
Definition is_break (c : ascii) := negb (is_alnum c).
(** [\w] of JS regexps. *)
Definition is_wordchar (c : ascii) := is_alnum c || Ascii.eqb c "_".

(** A backtracking regexp matcher, enough for lodash's word regexps. *)
Inductive re : Type :=
| RChar (p : ascii -> bool)
| RLit (l : list ascii)
| RSeq (a b : re)
| RAlt (a b : re)
| ROpt (a : re)
| RStar (p : ascii -> bool)
| RAhead (a : re)
| RNotAhead (a : re)
| REnd
| RBoundary.

Definition RPlus (p : ascii -> bool) : re := RSeq (RChar p) (RStar p).

Definition wordchar_opt (o : option ascii) : bool :=
  match o with Some c => is_wordchar c | None => false end.

(** Greedy [p*]: the longest run is tried first. *)
Fixpoint mstar {X} (p : ascii -> bool) (pv : option ascii) (s : list ascii)
  (k : option ascii -> list ascii -> option X) : option X :=
  match s with
  | c :: t =>
      if p c then
        match mstar p (Some c) t k with
        | Some x => Some x
        | None => k pv s
        end
      else k pv s
  | [] => k pv s
  end.

Fixpoint mlit {X} (l : list ascii) (pv : option ascii) (s : list ascii)
  (k : option ascii -> list ascii -> option X) : option X :=
  match l, s with
  | [], _ => k pv s
  | c :: l', d :: s' => if Ascii.eqb c d then mlit l' (Some d) s' k else None
  | _ :: _, [] => None
  end.

(** [mt r pv s k]: match [r] at the head of [s] ([pv] is the character
    before the position), then run the continuation [k]. *)
Fixpoint mt {X} (r : re) (pv : option ascii) (s : list ascii)
  (k : option ascii -> list ascii -> option X) {struct r} : option X :=
  match r with
  | RChar p => match s with
               | c :: t => if p c then k (Some c) t else None
               | [] => None
               end
  | RLit l => mlit l pv s k
  | RSeq a b => mt a pv s (fun pv' s' => mt b pv' s' k)
  | RAlt a b => match mt a pv s k with
                | Some x => Some x
                | None => mt b pv s k
                end
  | ROpt a => match mt a pv s k with
              | Some x => Some x
              | None => k pv s
              end
  | RStar p => mstar p pv s k
  | RAhead a => match mt a pv s (fun _ _ => Some tt) with
                | Some _ => k pv s
                | None => None
                end
  | RNotAhead a => match mt a pv s (fun _ _ => Some tt) with
                   | Some _ => None
                   | None => k pv s
                   end
  | REnd => match s with [] => k pv s | _ :: _ => None end
  | RBoundary =>
      if xorb (wordchar_opt pv) (wordchar_opt (hd_error s)) then k pv s
      else None
  end.

(** The rest of the input after the first match of [r] at the head of [s]. *)
Definition match_at (r : re) (pv : option ascii) (s : list ascii)
  : option (list ascii) :=
  mt r pv s (fun _ rest => Some rest).

(** The character before the position reached after reading [w]. *)
Fixpoint last_char (w : list ascii) (pv : option ascii) : option ascii :=
  match w with
  | [] => pv
  | c :: t => last_char t (Some c)
  end.

(** [String.prototype.match] with a global regexp: all matches, left to
    right; an empty match advances by one character. *)
Fixpoint scan (fuel : nat) (r : re) (pv : option ascii) (s : list ascii)
  : list (list ascii) :=
  match fuel with
  | O => []
  | S f =>
      match match_at r pv s with
      | Some rest =>
          let w := firstn (length s - length rest) s in
          match w with
          | [] => match s with
                  | [] => [[]]
                  | c :: t => [] :: scan f r (Some c) t
                  end
          | _ :: _ => w :: scan f r (last_char w pv) rest
          end
      | None => match s with
                | [] => []
                | c :: t => scan f r (Some c) t
                end
      end
  end.

(** Does [r] match somewhere in [s] ([RegExp.prototype.test]). *)
Definition re_test (r : re) (s : list ascii) : bool :=
  match scan (S (length s)) r None s with
  | [] => false
  | _ :: _ => true
  end.

Definition lit (s : string) : re := RLit (list_ascii_of_string s).
Definition rsUpper : re := RChar is_upper.
Definition rsLower : re := RChar is_lower.
Definition rsBreak : re := RChar is_break.
Definition is_letter (c : ascii) := is_upper c || is_lower c.

(** [reHasUnicodeWord]:
    [/[a-z][A-Z]|[A-Z]{2}[a-z]|[0-9][a-zA-Z]|[a-zA-Z][0-9]|[^a-zA-Z0-9 ]/]. *)
Definition reHasUnicodeWord : re :=
  RAlt (RSeq rsLower rsUpper)
  (RAlt (RSeq rsUpper (RSeq rsUpper rsLower))
  (RAlt (RSeq (RChar is_digit) (RChar is_letter))
  (RAlt (RSeq (RChar is_letter) (RChar is_digit))
        (RChar (fun c => negb (is_alnum c || Ascii.eqb c " ")))))).

(** [reAsciiWord]: [/[^\x00-\x2f\x3a-\x40\x5b-\x60\x7b-\x7f]+/g]. *)
Definition reAsciiWord : re :=
  RPlus (fun c => negb (in_range 0 47 c || in_range 58 64 c
                        || in_range 91 96 c || in_range 123 127 c)).

(** [reUnicodeWord] on deburred input.  There [rsMiscLower] is [rsLower] and
    [rsMiscUpper] is [rsUpper] ([rsMisc] holds no character left); the
    optional contractions [rsOptContrLower]/[rsOptContrUpper] start with an
    apostrophe, which [camelCase] has removed beforehand, so they always
    match the empty string and are left out; [rsEmoji] holds no character
    below U+0100. *)
Definition reUnicodeWord : re :=
  RAlt (* rsUpper? rsLower+ (?=rsBreak|rsUpper|$) *)
       (RSeq (ROpt rsUpper)
             (RSeq (RPlus is_lower) (RAhead (RAlt rsBreak (RAlt rsUpper REnd)))))
  (RAlt (* rsMiscUpper+ (?=rsBreak|rsUpper rsMiscLower|$) *)
       (RSeq (RPlus is_upper)
             (RAhead (RAlt rsBreak (RAlt (RSeq rsUpper rsLower) REnd))))
  (RAlt (* rsUpper? rsMiscLower+ *)
       (RSeq (ROpt rsUpper) (RPlus is_lower))
  (RAlt (* rsUpper+ *)
       (RPlus is_upper)
  (RAlt (* rsOrdUpper: \d*(?:1ST|2ND|3RD|(?![123])\dTH)(?=\b|[a-z_]) *)
       (RSeq (RStar is_digit)
         (RSeq (RAlt (lit "1ST") (RAlt (lit "2ND") (RAlt (lit "3RD")
                 (RSeq (RNotAhead (RChar (in_range 49 51)))
                       (RSeq (RChar is_digit) (lit "TH"))))))
               (RAhead (RAlt RBoundary
                  (RChar (fun c => is_lower c || Ascii.eqb c "_"))))))
  (RAlt (* rsOrdLower: \d*(?:1st|2nd|3rd|(?![123])\dth)(?=\b|[A-Z_]) *)
       (RSeq (RStar is_digit)
         (RSeq (RAlt (lit "1st") (RAlt (lit "2nd") (RAlt (lit "3rd")
                 (RSeq (RNotAhead (RChar (in_range 49 51)))
                       (RSeq (RChar is_digit) (lit "th"))))))
               (RAhead (RAlt RBoundary
                  (RChar (fun c => is_upper c || Ascii.eqb c "_"))))))
       (* rsDigits: \d+ *)
       (RPlus is_digit)))))).

(** [_.words(string)]. *)
Definition words (s : list ascii) : list (list ascii) :=
  if re_test reHasUnicodeWord s
  then scan (S (length s)) reUnicodeWord None s
  else scan (S (length s)) reAsciiWord None s.

Definition to_lower_char (c : ascii) : ascii :=
  if is_upper c then ascii_of_nat (nat_of_ascii c + 32) else c.
Definition to_upper_char (c : ascii) : ascii :=
  if is_lower c then ascii_of_nat (nat_of_ascii c - 32) else c.

Definition to_lower (w : list ascii) : list ascii := map to_lower_char w.

(** [_.upperFirst] on a character list. *)
Definition upper_first (w : list ascii) : list ascii :=
  match w with
  | [] => []
  | c :: t => to_upper_char c :: t
  end.

(** [_.capitalize]. *)
Definition capitalize (w : list ascii) : list ascii := upper_first (to_lower w).

(** The [camelCase] compounder: [result + (index ? capitalize(word) : word)]
    with [word] lower-cased, reduced over the words from index 0. *)
Fixpoint camel_reduce (acc : list ascii) (index : nat) (ws : list (list ascii))
  : list ascii :=
  match ws with
  | [] => acc
  | w :: t =>
      let word := to_lower w in
      camel_reduce
        ((acc ++ match index with O => word | S _ => capitalize word end)%list)
        (S index) t
  end.

(** lodash's [deburredLetters] on U+00C0-U+00FF: code-point ranges and the
    ASCII letters each character of the range becomes. *)
Definition deburredLetters : list (nat * nat * string) :=
  [(192, 197, "A"); (198, 198, "Ae"); (199, 199, "C"); (200, 203, "E");
   (204, 207, "I"); (208, 208, "D"); (209, 209, "N"); (210, 214, "O");
   (216, 216, "O"); (217, 220, "U"); (221, 221, "Y"); (222, 222, "Th");
   (223, 223, "ss");
   (224, 229, "a"); (230, 230, "ae"); (231, 231, "c"); (232, 235, "e");
   (236, 239, "i"); (240, 240, "d"); (241, 241, "n"); (242, 246, "o");
   (248, 248, "o"); (249, 252, "u"); (253, 253, "y"); (254, 254, "th");
   (255, 255, "y")]%nat.

(** [reLatin] replaced by [deburrLetter]; a character outside [reLatin]
    is kept. *)
Definition deburr_char (c : ascii) : list ascii :=
  match find (fun e => in_range (fst (fst e)) (snd (fst e)) c) deburredLetters with
  | Some e => list_ascii_of_string (snd e)
  | None => [c]
  end.

(** [_.deburr]: the [reComboMark] pass removes nothing below U+0100. *)
Definition deburr (l : list ascii) : list ascii := flat_map deburr_char l.



(** [_.camelCase]: [deburr], removal of apostrophes ([reApos]), [words],
    then the compounder. *)
Definition camelCase (s : string) : string :=
  let l := filter (fun c => negb (Ascii.eqb c "'")) (deburr (list_ascii_of_string s)) in
  string_of_list_ascii (camel_reduce [] 0 (words l)).

Definition upperFirst (s : string) : string :=
  string_of_list_ascii (upper_first (list_ascii_of_string s)).

(** ** NameResolver (typeConverter.ts, lines 260-268) *)

Record DeclaredTypeName : Type := {
  fernFilepath : list string;
  name : string
}.

(** [nameTokens = [...fernFilepath]; nameTokens.push(name);
     upperFirst(camelCase(nameTokens.join(" ")))] *)
Definition getNameFromDeclaredTypeName (d : DeclaredTypeName) : string :=
  let nameTokens := (fernFilepath d ++ [name d])%list in
  upperFirst (camelCase (String.concat " " nameTokens)).

Definition getReferenceFromDeclaredTypeName (d : DeclaredTypeName) : string :=
  "#/components/schemas/" ++ getNameFromDeclaredTypeName d.

(** ** The IR (read-only input)

    Every tagged union of the IR carries, besides its known variants, the
    [_unknown] case of the generated visitors: a value whose tag is outside
    the closed set. *)

Inductive PrimitiveType : Type :=
| INTEGER | DOUBLE | STRING | BOOLEAN | LONG | DATE_TIME | UUID
| PrimitiveType_unknown (tag : string).

Inductive TypeReference : Type :=
| TR_container (c : ContainerType)
| TR_named (d : DeclaredTypeName)
| TR_primitive (p : PrimitiveType)
| TR_unknown
| TR_void
| TR_other (tag : string)
with ContainerType : Type :=
| CT_list (t : TypeReference)
| CT_set (t : TypeReference)
| CT_map (keyType valueType : TypeReference)
| CT_optional (t : TypeReference)
| CT_other (tag : string).

Scheme TypeReference_mut := Induction for TypeReference Sort Prop
with ContainerType_mut := Induction for ContainerType Sort Prop.

Record ObjectProperty : Type := {
  key : string;
  docs : option string;
  valueType : TypeReference
}.

Record ObjectTypeDeclaration : Type := {
  extends : list DeclaredTypeName;
  properties : list ObjectProperty
}.

Record SingleUnionType : Type := {
  discriminantValue : string;
  su_valueType : TypeReference
}.

Record UnionTypeDeclaration : Type := {
  discriminant : string;
  types : list SingleUnionType
}.

Record EnumValue : Type := { value : string }.
Record EnumTypeDeclaration : Type := { values : list EnumValue }.
Record AliasTypeDeclaration : Type := { aliasOf : TypeReference }.

Inductive Type_ : Type :=
| T_alias (a : AliasTypeDeclaration)
| T_enum (e : EnumTypeDeclaration)
| T_object (o : ObjectTypeDeclaration)
| T_union (u : UnionTypeDeclaration)
| T_other (tag : string).

Record TypeDeclaration : Type := {
  td_name : DeclaredTypeName;
  td_docs : option string;
  shape : Type_
}.

(** String conversion of an object in an error message. *)
Definition object_to_string : string := "[object Object]".

(** [docs ?? undefined] *)
Definition docs_val (d : option string) : jsval :=
  match d with Some s => JStr s | None => JUndef end.

(** ** TypeConverter (typeConverter.ts) *)

Definition convertPrimitiveType (p : PrimitiveType) : result jsobj :=
  match p with
  | BOOLEAN => Ok [("type", JStr "boolean")]
  | DATE_TIME => Ok [("type", JStr "string"); ("format", JStr "date-time")]
  | DOUBLE => Ok [("type", JStr "number"); ("format", JStr "double")]
  | INTEGER => Ok [("type", JStr "integer")]
  | LONG => Ok [("type", JStr "integer"); ("format", JStr "int64")]
  | STRING => Ok [("type", JStr "string")]
  | UUID => Ok [("type", JStr "string"); ("format", JStr "uuid")]
  | PrimitiveType_unknown tag => Err ("Encountered unknown primitiveType: " ++ tag)
  end.

Fixpoint convertTypeReference (t : TypeReference) : result jsobj :=
  match t with
  | TR_container c => convertContainerType c
  | TR_named d => Ok [("$ref", JStr (getReferenceFromDeclaredTypeName d))]
  | TR_primitive p => convertPrimitiveType p
  | TR_unknown => Ok []
  | TR_void => Ok []
  | TR_other _ => Err ("Encountered unknown typeReference: " ++ object_to_string)
  end
with convertContainerType (c : ContainerType) : result jsobj :=
  match c with
  | CT_list t => items <- convertTypeReference t;;
                 Ok [("type", JStr "array"); ("items", JObj items)]
  | CT_set t => items <- convertTypeReference t;;
                Ok [("type", JStr "array"); ("items", JObj items)]
  | CT_map _ v => ap <- convertTypeReference v;;
                  Ok [("type", JStr "object"); ("additionalProperties", JObj ap)]
  | CT_optional t => convertTypeReference t
  | CT_other _ => Err ("Encountered unknown containerType: " ++ object_to_string)
  end.

Definition convertAlias (a : AliasTypeDeclaration) (d : jsval) : result jsobj :=
  convertedAliasOf <- convertTypeReference (aliasOf a);;
  Ok (define (spread convertedAliasOf) "description" d).

Definition convertEnum (e : EnumTypeDeclaration) (d : jsval) : result jsobj :=
  Ok [("type", JStr "string");
      ("enum", JArr (map (fun v => JStr (value v)) (values e)));
      ("description", d)].

Definition isOptionalProperty (t : TypeReference) : bool :=
  match t with
  | TR_container (CT_optional _) => true
  | _ => false
  end.

(** The [forEach] loop over the properties, threading the [properties]
    object and the [required] array it mutates. *)
Fixpoint convertProperties (ps : list ObjectProperty) (props : jsobj)
  (required : list string) : result (jsobj * list string) :=
  match ps with
  | [] => Ok (props, required)
  | p :: ps' =>
      convertedObjectProperty <- convertTypeReference (valueType p);;
      let props' := assign props (key p)
            (JObj (define (spread convertedObjectProperty) "description"
                          (docs_val (docs p)))) in
      let required' := if isOptionalProperty (valueType p) then required
                       else (required ++ [key p])%list in
      convertProperties ps' props' required'
  end.

Definition refObject (d : DeclaredTypeName) : jsval :=
  JObj [("$ref", JStr (getReferenceFromDeclaredTypeName d))].

Definition convertObject (o : ObjectTypeDeclaration) (d : jsval) : result jsobj :=
  pr <- convertProperties (properties o) [] [];;
  let convertedSchemaObject :=
    [("type", JStr "object"); ("description", d);
     ("properties", JObj (fst pr)); ("required", JArr (map JStr (snd pr)))] in
  match extends o with
  | [] => Ok convertedSchemaObject
  | _ :: _ => Ok (assign convertedSchemaObject "allOf" (JArr (map refObject (extends o))))
  end.

(** One entry of [oneOf]. *)
Definition convertSingleUnionType (discr : string) (s : SingleUnionType)
  : result jsobj :=
  let vt := su_valueType s in
  convertedValueType <- convertTypeReference vt;;
  let tag := JObj [("type", JStr "string");
                   ("enum", JArr [JStr (discriminantValue s)])] in
  match vt with
  | TR_named n =>
      let props := assign [] discr tag in
      Ok [("type", JStr "object");
          ("allOf", JArr [refObject n;
                          JObj [("type", JStr "object"); ("properties", JObj props)]])]
  | _ =>
      let props := assign [] discr tag in
      let props := assign props discr (JObj convertedValueType) in
      Ok [("type", JStr "object"); ("properties", JObj props)]
  end.

Definition convertUnion (u : UnionTypeDeclaration) (d : jsval) : result jsobj :=
  oneOfTypes <- mapM (convertSingleUnionType (discriminant u)) (types u);;
  Ok [("oneOf", JArr (map JObj oneOfTypes)); ("description", d)].

Record ConvertedType : Type := {
  openApiSchema : jsobj;
  schemaName : string
}.

Definition convertType (td : TypeDeclaration) : result ConvertedType :=
  let d := docs_val (td_docs td) in
  openApiSchema <-
    match shape td with
    | T_alias a => convertAlias a d
    | T_enum e => convertEnum e d
    | T_object o => convertObject o d
    | T_union u => convertUnion u d
    | T_other _ => Err ("Encountered unknown type: " ++ object_to_string)
    end;;
  Ok {| openApiSchema := openApiSchema;
        schemaName := getNameFromDeclaredTypeName (td_name td) |}.

(** ** AuthConverter *)

(** The header scheme's wire name and the IR's precomputed
    [name.name.pascalCase.unsafeName]. *)
Record HeaderAuthScheme : Type := {
  header_wireValue : string;
  header_pascalCase_unsafeName : string
}.

Inductive AuthScheme : Type :=
| AS_bearer
| AS_basic
| AS_header (h : HeaderAuthScheme)
| AS_other (tag : string).

Inductive AuthSchemesRequirement : Type :=
| ALL
| ANY
| AuthSchemesRequirement_unknown (tag : string).

Record ApiAuth : Type := {
  requirement : AuthSchemesRequirement;
  schemes : list AuthScheme
}.

Definition getNameForAuthScheme (s : AuthScheme) : result string :=
  match s with
  | AS_bearer => Ok "BearerAuth"
  | AS_basic => Ok "BasicAuth"
  | AS_header h => Ok (header_pascalCase_unsafeName h ++ "Auth")
  | AS_other tag => Err ("Unknown auth scheme: " ++ tag)
  end.

(** [schemes.reduce((acc, scheme) => ({...acc, [name]: []}), {})] *)
Fixpoint reduceAll (acc : jsobj) (ss : list AuthScheme) : result jsobj :=
  match ss with
  | [] => Ok acc
  | s :: t => n <- getNameForAuthScheme s;;
              reduceAll (define (spread acc) n (JArr [])) t
  end.

Definition constructEndpointSecurity (a : ApiAuth) : result (list jsobj) :=
  match requirement a with
  | ALL => acc <- reduceAll [] (schemes a);; Ok [acc]
  | ANY => mapM (fun s => n <- getNameForAuthScheme s;; Ok [(n, JArr [])]) (schemes a)
  | AuthSchemesRequirement_unknown tag =>
      Err ("Unknown auth scheme requiremen: " ++ tag)
  end.

Definition securitySchemeObject (s : AuthScheme) : result jsobj :=
  match s with
  | AS_bearer => Ok [("type", JStr "http"); ("scheme", JStr "bearer")]
  | AS_basic => Ok [("type", JStr "http"); ("scheme", JStr "basic")]
  | AS_header h => Ok [("type", JStr "apiKey"); ("in", JStr "header");
                       ("name", JStr (header_wireValue h))]
  | AS_other tag => Err ("Unknown auth scheme: " ++ tag)
  end.

(** The [for ... of] loop: [securitySchemes[getNameForAuthScheme(scheme)] =
    visit(scheme)]; the key is evaluated before the value. *)
Fixpoint securitySchemesLoop (acc : jsobj) (ss : list AuthScheme) : result jsobj :=
  match ss with
  | [] => Ok acc
  | s :: t => n <- getNameForAuthScheme s;;
              v <- securitySchemeObject s;;
              securitySchemesLoop (assign acc n (JObj v)) t
  end.

Definition constructSecuritySchemes (a : ApiAuth) : result jsobj :=
  securitySchemesLoop [] (schemes a).

(** ** Closed-set inputs: values built only from the known variants *)

Definition wf_primitive (p : PrimitiveType) : bool :=
  match p with PrimitiveType_unknown _ => false | _ => true end.

Fixpoint wf_ref (t : TypeReference) : bool :=
  match t with
  | TR_container c => wf_container c
  | TR_named _ | TR_unknown | TR_void => true
  | TR_primitive p => wf_primitive p
  | TR_other _ => false
  end
with wf_container (c : ContainerType) : bool :=
  match c with
  | CT_list t | CT_set t | CT_optional t => wf_ref t
  | CT_map k v => wf_ref v
  | CT_other _ => false
  end.

Definition wf_shape (s : Type_) : bool :=
  match s with
  | T_alias a => wf_ref (aliasOf a)
  | T_enum _ => true
  | T_object o => forallb (fun p => wf_ref (valueType p)) (properties o)
  | T_union u => forallb (fun v => wf_ref (su_valueType v)) (types u)
  | T_other _ => false
  end.

Definition wf_scheme (s : AuthScheme) : bool :=
  match s with AS_other _ => false | _ => true end.

Definition wf_requirement (r : AuthSchemesRequirement) : bool :=
  match r with AuthSchemesRequirement_unknown _ => false | _ => true end.


(** The key lists a converted type reference can have. *)
Definition reference_key_shapes : list (list string) :=
  [["$ref"]; ["type"]; ["type"; "format"]; ["type"; "items"];
   ["type"; "additionalProperties"]; []].

Definition property_schema (pc : ObjectProperty * jsobj) : string * jsval :=
  (key (fst pc), JObj (snd pc ++ [("description", docs_val (docs (fst pc)))])%list).

(** The variant schema the union section of the spec describes. *)
Definition union_variant_schema (discr : string) (vc : SingleUnionType * jsobj)
  : jsval :=
  let '(v, c) := vc in
  match su_valueType v with
  | TR_named n =>
      JObj [("type", JStr "object");
            ("allOf", JArr [JObj [("$ref", JStr ("#/components/schemas/"
                                                 ++ getNameFromDeclaredTypeName n))];
                            JObj [("type", JStr "object");
                                  ("properties",
                                   JObj [(discr, JObj [("type", JStr "string");
                                                       ("enum", JArr [JStr (discriminantValue v)])])])]])]
  | _ => JObj [("type", JStr "object"); ("properties", JObj [(discr, JObj c)])]
  end.

(** The distinctions [convertTypeReference] forgets: [set] becomes [list],
    [optional] wrappers disappear, a map's key type becomes [void], and
    [unknown] becomes [void]. *)
Fixpoint normalize_ref (t : TypeReference) : TypeReference :=
  match t with
  | TR_container c => normalize_container c
  | TR_named d => TR_named d
  | TR_primitive p => TR_primitive p
  | TR_unknown | TR_void => TR_void
  | TR_other tag => TR_other tag
  end
with normalize_container (c : ContainerType) : TypeReference :=
  match c with
  | CT_list t | CT_set t => TR_container (CT_list (normalize_ref t))
  | CT_map _ v => TR_container (CT_map TR_void (normalize_ref v))
  | CT_optional t => normalize_ref t
  | CT_other tag => TR_container (CT_other tag)
  end.

(** ** Sample inputs *)

Definition dtn (fp : list string) (n : string) : DeclaredTypeName :=
  {| fernFilepath := fp; name := n |}.

Definition prop (k : string) (t : TypeReference) : ObjectProperty :=
  {| key := k; docs := None; valueType := t |}.

Definition sample_object : ObjectTypeDeclaration :=
  {| extends := [dtn ["core"] "a"; dtn ["core"] "b"];
     properties := [prop "id" (TR_primitive STRING);
                    prop "note" (TR_container (CT_optional (TR_primitive STRING)))] |}.

Definition sample_optional_object : ObjectTypeDeclaration :=
  {| extends := [];
     properties := [prop "note" (TR_container (CT_optional (TR_primitive STRING)))] |}.

Definition sample_union : UnionTypeDeclaration :=
  {| discriminant := "type";
     types := [{| discriminantValue := "dog"; su_valueType := TR_named (dtn [] "dog") |};
               {| discriminantValue := "count"; su_valueType := TR_primitive INTEGER |}] |}.

Definition index_key_object : ObjectTypeDeclaration :=
  {| extends := [];
     properties := [prop "b" (TR_primitive STRING); prop "1" (TR_primitive STRING)] |}.

Definition proto_key_object : ObjectTypeDeclaration :=
  {| extends := []; properties := [prop "__proto__" (TR_primitive STRING)] |}.

Definition duplicate_key_object : ObjectTypeDeclaration :=
  {| extends := [];
     properties := [prop "a" (TR_primitive STRING); prop "a" (TR_primitive INTEGER)] |}.

Definition proto_union : UnionTypeDeclaration :=
  {| discriminant := "__proto__";
     types := [{| discriminantValue := "dog"; su_valueType := TR_named (dtn [] "dog") |}] |}.


Definition sample_alias : AliasTypeDeclaration :=
  {| aliasOf := TR_container (CT_list (TR_primitive STRING)) |}.

Definition sample_declaration : TypeDeclaration :=
  {| td_name := dtn ["core"; "models"] "user"; td_docs := Some "A user";
     shape := T_object sample_object |}.

Definition sample_auth : ApiAuth :=
  {| requirement := ALL; schemes := [AS_bearer; AS_basic] |}.

(** A header scheme whose name collides with the bearer scheme's. *)
Definition colliding_header : HeaderAuthScheme :=
  {| header_wireValue := "X-Api-Key"; header_pascalCase_unsafeName := "Bearer" |}.

Definition colliding_auth : ApiAuth :=
  {| requirement := ANY; schemes := [AS_bearer; AS_header colliding_header] |}.

(** The last pair with key [k] in an association list. *)
Definition last_binding (k : string) (l : list (string * jsobj)) : option jsval :=
  match find (fun p => String.eqb k (fst p)) (rev l) with
  | Some p => Some (JObj (snd p))
  | None => None
  end.

(** The last declared property with key [k]. *)
Definition last_property (k : string) (ps : list ObjectProperty) : option ObjectProperty :=
  find (fun p => String.eqb k (key p)) (rev ps).

(** The object [ {...c, description: d} ] a property with converted type [c]
    and docs [d] is meant to get. *)
Definition described (c : jsobj) (d : jsval) : jsval :=
  JObj (c ++ [("description", d)])%list.

(** OpenAPI's primitive [type] and [format] values. *)
Definition schema_types : list jsval :=
  [JStr "boolean"; JStr "string"; JStr "number"; JStr "integer"; JStr "array";
   JStr "object"].
Definition schema_formats : list jsval :=
  [JStr "date-time"; JStr "double"; JStr "int64"; JStr "uuid"].

(** * Properties *)



(** ** Plain-object lemmas *)

Lemma lookup_define (o : jsobj) (k n : string) (v : jsval) :
  lookup k (define o n v) = if String.eqb k n then Some v else lookup k o.
Proof.
  induction o as [|[k' v'] t IH]; simpl.
  - destruct (String.eqb k n); reflexivity.
  - destruct (String.eqb n k') eqn:E1.
    + apply String.eqb_eq in E1; subst k'. simpl.
      destruct (String.eqb k n); reflexivity.
    + simpl. destruct (String.eqb k k') eqn:E2.
      * apply String.eqb_eq in E2; subst k'.
        destruct (String.eqb k n) eqn:E3; [|reflexivity].
        apply String.eqb_eq in E3; subst n.
        rewrite String.eqb_refl in E1; discriminate.
      * exact IH.
Qed.

Lemma define_fresh (o : jsobj) (k : string) (v : jsval) :
  ~ In k (map fst o) -> define o k v = (o ++ [(k, v)])%list.
Proof.
  induction o as [|[k' v'] t IH]; simpl; [reflexivity|].
  intros H. destruct (String.eqb k k') eqn:E.
  - apply String.eqb_eq in E; subst; tauto.
  - rewrite IH; [reflexivity|tauto].
Qed.

Lemma index_keys_plain (o : jsobj) :
  Forall (fun k => is_array_index k = false) (map fst o) -> index_keys o = [].
Proof.
  induction o as [|[k v] t IH]; simpl; [reflexivity|].
  intros H. inversion H as [|? ? Hk Ht]; subst.
  unfold is_array_index in Hk. destruct (array_index k); [discriminate|].
  apply IH, Ht.
Qed.

Lemma own_keys_plain (o : jsobj) :
  Forall (fun k => is_array_index k = false) (map fst o) -> own_keys o = map fst o.
Proof.
  intros H. unfold own_keys. rewrite index_keys_plain by exact H. simpl.
  f_equal. induction o as [|[k v] t IH]; simpl; [reflexivity|].
  inversion H as [|? ? Hk Ht]; subst. rewrite Hk. simpl. f_equal. apply IH, Ht.
Qed.

Lemma flat_map_ext_in {A B} (f g : A -> list B) (l : list A) :
  (forall a, In a l -> f a = g a) -> flat_map f l = flat_map g l.
Proof.
  induction l as [|a t IH]; simpl; intros H; [reflexivity|].
  rewrite H by tauto. f_equal. apply IH. intros; apply H; tauto.
Qed.

Lemma flat_map_lookup_nodup (o : jsobj) :
  NoDup (map fst o) ->
  flat_map (fun k => match lookup k o with Some v => [(k, v)] | None => [] end)
           (map fst o) = o.
Proof.
  induction o as [|[k v] t IH]; simpl; [reflexivity|].
  intros H. inversion H as [|? ? Hk Ht]; subst.
  rewrite String.eqb_refl. simpl. f_equal.
  rewrite <- (IH Ht) at 2. symmetry. apply flat_map_ext_in. intros k' Hin.
  destruct (String.eqb k' k) eqn:E; [|reflexivity].
  apply String.eqb_eq in E; subst. contradiction.
Qed.

(** A plain object whose keys are distinct and not array indices is seen
    in creation order. *)
Lemma entries_plain (o : jsobj) :
  NoDup (map fst o) ->
  Forall (fun k => is_array_index k = false) (map fst o) -> entries o = o.
Proof.
  intros Hn Hi. unfold entries. rewrite own_keys_plain by exact Hi.
  apply flat_map_lookup_nodup, Hn.
Qed.

Lemma fold_define_fresh (o acc : jsobj) :
  NoDup (map fst o) ->
  (forall k, In k (map fst o) -> ~ In k (map fst acc)) ->
  fold_left (fun acc kv => define acc (fst kv) (snd kv)) o acc = (acc ++ o)%list.
Proof.
  revert acc. induction o as [|[k v] t IH]; intros acc Hn Hd; simpl.
  - rewrite app_nil_r. reflexivity.
  - inversion Hn as [|? ? Hk Ht]; subst.
    rewrite define_fresh by (apply Hd; simpl; tauto).
    rewrite IH; [rewrite <- app_assoc; reflexivity|exact Ht|].
    intros k' Hin. rewrite map_app, in_app_iff. simpl.
    intros [H|[H|H]]; [exact (Hd k' (or_intror Hin) H)|subst; contradiction|exact H].
Qed.

(** Spreading a plain object with distinct, non-index keys copies it. *)
Lemma spread_plain (o : jsobj) :
  NoDup (map fst o) ->
  Forall (fun k => is_array_index k = false) (map fst o) -> spread o = o.
Proof.
  intros Hn Hi. unfold spread. rewrite entries_plain by assumption.
  apply fold_define_fresh; [exact Hn|]. simpl. tauto.
Qed.

(** ** Claims *)

(** C1: the schema name of a declared type is [upperFirst] of the
    [camelCase] of its path segments and leaf name joined by single spaces;
    its reference is ["#/components/schemas/"] followed by that name.  The
    path [["core"; "models"]] with leaf ["user"] gives ["CoreModelsUser"]
    and ["#/components/schemas/CoreModelsUser"]. *)
Theorem name_resolution :
  (forall d : DeclaredTypeName,
      getNameFromDeclaredTypeName d
      = upperFirst (camelCase (String.concat " " (fernFilepath d ++ [name d])%list))
   /\ getReferenceFromDeclaredTypeName d
      = "#/components/schemas/" ++ getNameFromDeclaredTypeName d)
  /\ getNameFromDeclaredTypeName
       {| fernFilepath := ["core"; "models"]; name := "user" |} = "CoreModelsUser"
  /\ getReferenceFromDeclaredTypeName
       {| fernFilepath := ["core"; "models"]; name := "user" |}
     = "#/components/schemas/CoreModelsUser".
Proof.
  split; [intros d; split; reflexivity|].
  split; vm_compute; reflexivity.
Qed.

(** C2: a [named] reference converts to exactly one [$ref] to the resolved
    schema name; the converter takes no declaration environment, so the
    referenced declaration is never expanded. *)
Theorem convert_named_is_ref (d : DeclaredTypeName) :
  convertTypeReference (TR_named d)
  = Ok [("$ref", JStr ("#/components/schemas/" ++ getNameFromDeclaredTypeName d))].
Proof. reflexivity. Qed.

(** C3: converting [optional(T)] gives exactly the conversion of [T]. *)
Theorem convert_optional_transparent (t : TypeReference) :
  convertTypeReference (TR_container (CT_optional t)) = convertTypeReference t.
Proof. reflexivity. Qed.

(** C6: a converted object is the object literal [type], [description],
    [properties], [required], followed, when [extends] is non-empty, by a
    sibling [allOf] holding one [$ref] per supertype in declared order; with
    an empty [extends] there is no [allOf]. *)
Theorem convertObject_extends (o : ObjectTypeDeclaration) (dd : jsval) (r : jsobj)
  (H : convertObject o dd = Ok r) :
  exists P R,
    r = ([("type", JStr "object"); ("description", dd);
          ("properties", JObj P); ("required", JArr R)]
         ++ match extends o with
            | [] => []
            | _ :: _ =>
                [("allOf",
                  JArr (map (fun n => JObj [("$ref", JStr ("#/components/schemas/"
                                            ++ getNameFromDeclaredTypeName n))])
                            (extends o)))]
            end)%list.
Proof.
  unfold convertObject in H.
  destruct (convertProperties (properties o) [] []) as [[P R]|e]; [|discriminate].
  simpl in H. exists P, (map JStr R).
  destruct (extends o) as [|n ns]; injection H as <-; reflexivity.
Qed.

(** C10: a converted object always has the fields [type] ("object"),
    [description], [properties] and [required], in this order; with no
    properties, [properties] is [{}] and [required] is [[]]; with only
    optional properties, [required] is still present as [[]]. *)
Theorem convertObject_fields (o : ObjectTypeDeclaration) (dd : jsval) (r : jsobj)
  (H : convertObject o dd = Ok r) :
  firstn 4 (map fst r) = ["type"; "description"; "properties"; "required"]
  /\ lookup "type" r = Some (JStr "object")
  /\ lookup "description" r = Some dd
  /\ (properties o = [] ->
      lookup "properties" r = Some (JObj []) /\ lookup "required" r = Some (JArr []))
  /\ (Forall (fun p => isOptionalProperty (valueType p) = true) (properties o) ->
      lookup "required" r = Some (JArr [])).
Proof.
  unfold convertObject in H.
  destruct (convertProperties (properties o) [] []) as [[P R]|e] eqn:Hc;
    [|discriminate].
  simpl in H.
  assert (Hr : exists tl, r = ([("type", JStr "object"); ("description", dd);
            ("properties", JObj P); ("required", JArr (map JStr R))] ++ tl)%list).
  { destruct (extends o); injection H as <-; eexists; reflexivity. }
  destruct Hr as [tl ->]. simpl.
  split; [reflexivity|]. split; [reflexivity|]. split; [reflexivity|].
  split.
  - intros He. rewrite He in Hc. simpl in Hc. injection Hc as <- <-.
    split; reflexivity.
  - intros Hall. assert (R = []) as ->; [|reflexivity].
    revert Hc. generalize (@nil (string * jsval)) as props.
    induction Hall as [|p ps Hp Hps IH]; intros props Hc.
    + simpl in Hc. injection Hc as _ <-. reflexivity.
    + simpl in Hc. destruct (convertTypeReference (valueType p)); [|discriminate].
      simpl in Hc. rewrite Hp in Hc. exact (IH _ Hc).
Qed.

(** ** Failure exactly on unknown tags *)

Lemma is_ok_bind_ok {A B} (m : result A) (f : A -> B) :
  is_ok (x <- m;; Ok (f x)) = is_ok m.
Proof. destruct m; reflexivity. Qed.

Lemma convertTypeReference_ok_iff (t : TypeReference) :
  is_ok (convertTypeReference t) = wf_ref t.
Proof.
  apply (TypeReference_mut
           (fun t => is_ok (convertTypeReference t) = wf_ref t)
           (fun c => is_ok (convertContainerType c) = wf_container c));
    intros; simpl; try reflexivity; try assumption;
    try (rewrite is_ok_bind_ok; assumption).
  destruct p; reflexivity.
Qed.

Lemma convertProperties_ok_iff (ps : list ObjectProperty) props req :
  is_ok (convertProperties ps props req) = forallb (fun p => wf_ref (valueType p)) ps.
Proof.
  revert props req. induction ps as [|p ps IH]; intros props req; [reflexivity|].
  simpl. rewrite <- convertTypeReference_ok_iff.
  destruct (convertTypeReference (valueType p)); simpl; [apply IH|reflexivity].
Qed.

Lemma mapM_ok_iff {A B} (f : A -> result B) (l : list A) :
  is_ok (mapM f l) = forallb (fun x => is_ok (f x)) l.
Proof.
  induction l as [|x t IH]; [reflexivity|]. simpl.
  destruct (f x); simpl; [|reflexivity].
  destruct (mapM f t); simpl in *; rewrite <- IH; reflexivity.
Qed.

Lemma forallb_ext_fun {A} (f g : A -> bool) (l : list A) :
  (forall x, f x = g x) -> forallb f l = forallb g l.
Proof.
  intros H. induction l as [|x t IH]; simpl; [reflexivity|]. rewrite H, IH. reflexivity.
Qed.

Lemma convertSingleUnionType_ok_iff (d : string) (v : SingleUnionType) :
  is_ok (convertSingleUnionType d v) = wf_ref (su_valueType v).
Proof.
  unfold convertSingleUnionType. rewrite <- convertTypeReference_ok_iff.
  destruct (convertTypeReference (su_valueType v)); simpl; [|reflexivity].
  destruct (su_valueType v); reflexivity.
Qed.

Lemma reduceAll_ok_iff (acc : jsobj) (ss : list AuthScheme) :
  is_ok (reduceAll acc ss) = forallb wf_scheme ss.
Proof.
  revert acc. induction ss as [|s t IH]; intros acc; [reflexivity|].
  destruct s; simpl; try apply IH. reflexivity.
Qed.

Lemma securitySchemesLoop_ok_iff (acc : jsobj) (ss : list AuthScheme) :
  is_ok (securitySchemesLoop acc ss) = forallb wf_scheme ss.
Proof.
  revert acc. induction ss as [|s t IH]; intros acc; [reflexivity|].
  destruct s; simpl; try apply IH. reflexivity.
Qed.

(** C8 (as amended): every converter fails exactly when a part of the
    input it reads carries a tag outside the closed set, and succeeds on
    every closed-set input (empty lists and paths included).
    [convertTypeReference] reads every tag of the reference,
    [convertType] the shape and every reference it holds,
    [constructEndpointSecurity] the requirement mode and every scheme kind,
    [constructSecuritySchemes] every scheme kind but not the requirement
    mode. *)
Theorem converters_fail_exactly_on_unknown_tags :
  (forall t, is_ok (convertTypeReference t) = wf_ref t)
  /\ (forall td, is_ok (convertType td) = wf_shape (shape td))
  /\ (forall a, is_ok (constructEndpointSecurity a)
                = wf_requirement (requirement a) && forallb wf_scheme (schemes a))
  /\ (forall a, is_ok (constructSecuritySchemes a) = forallb wf_scheme (schemes a)).
Proof.
  split; [exact convertTypeReference_ok_iff|].
  split; [|split].
  - intros td. unfold convertType.
    destruct (shape td) as [a|e|o|u|tag]; simpl.
    + unfold convertAlias. rewrite <- convertTypeReference_ok_iff.
      destruct (convertTypeReference (aliasOf a)); reflexivity.
    + reflexivity.
    + unfold convertObject. rewrite <- (convertProperties_ok_iff _ [] []).
      destruct (convertProperties (properties o) [] []); [|reflexivity].
      simpl. destruct (extends o); reflexivity.
    + unfold convertUnion.
      rewrite (forallb_ext_fun (fun v => wf_ref (su_valueType v))
                 (fun v => is_ok (convertSingleUnionType (discriminant u) v)))
        by (intros v; symmetry; apply convertSingleUnionType_ok_iff).
      rewrite <- mapM_ok_iff.
      destruct (mapM (convertSingleUnionType (discriminant u)) (types u));
        reflexivity.
    + reflexivity.
  - intros a. unfold constructEndpointSecurity.
    destruct (requirement a); simpl.
    + rewrite <- (reduceAll_ok_iff []). destruct (reduceAll [] (schemes a)); reflexivity.
    + rewrite mapM_ok_iff. apply forallb_ext_fun. intros s.
      rewrite is_ok_bind_ok. destruct s; reflexivity.
    + reflexivity.
  - intros a. apply securitySchemesLoop_ok_iff.
Qed.

(** ** Objects and unions *)


Lemma convertTypeReference_keys (t : TypeReference) (c : jsobj) :
  convertTypeReference t = Ok c -> In (map fst c) reference_key_shapes.
Proof.
  revert c.
  apply (TypeReference_mut
           (fun t => forall c, convertTypeReference t = Ok c ->
                               In (map fst c) reference_key_shapes)
           (fun ct => forall c, convertContainerType ct = Ok c ->
                                In (map fst c) reference_key_shapes));
    intros; simpl in *;
    repeat match goal with
           | H : Ok _ = Ok _ |- _ => injection H as <-
           | H : Err _ = Ok _ |- _ => discriminate H
           | H : bind ?m _ = Ok _ |- _ => destruct m; simpl in H
           end;
    try (simpl; tauto); auto.
  destruct p; simpl in *; try discriminate;
    match goal with H : Ok _ = Ok _ |- _ => injection H as <- end; simpl; tauto.
Qed.

(** [{...converted, description}] appends [description] to a converted
    type reference. *)
Lemma attach_description (t : TypeReference) (c : jsobj) (d : jsval) :
  convertTypeReference t = Ok c ->
  define (spread c) "description" d = (c ++ [("description", d)])%list.
Proof.
  intros H. apply convertTypeReference_keys in H.
  assert (Hk : NoDup (map fst c)
               /\ Forall (fun k => is_array_index k = false) (map fst c)
               /\ ~ In "description" (map fst c)).
  { unfold reference_key_shapes in H; simpl in H.
    repeat destruct H as [H|H]; try contradiction; rewrite <- H;
      (split; [repeat constructor; simpl; intuition discriminate|
       split; [repeat constructor|simpl; intuition discriminate]]). }
  destruct Hk as (Hn & Hi & Hd).
  rewrite spread_plain by assumption. apply define_fresh, Hd.
Qed.

Lemma mapM_length {A B} (f : A -> result B) (l : list A) (r : list B) :
  mapM f l = Ok r -> length r = length l.
Proof.
  revert r. induction l as [|x t IH]; intros r H; simpl in H.
  - injection H as <-. reflexivity.
  - destruct (f x); [|discriminate]. simpl in H.
    destruct (mapM f t) eqn:E; [|discriminate]. simpl in H.
    injection H as <-. simpl. f_equal. apply IH. reflexivity.
Qed.


Lemma convertProperties_plain (ps : list ObjectProperty) (props : jsobj)
  (req : list string) (cs : list jsobj) :
  mapM (fun p => convertTypeReference (valueType p)) ps = Ok cs ->
  NoDup (map key ps) ->
  Forall (fun p => key p <> "__proto__") ps ->
  (forall p, In p ps -> ~ In (key p) (map fst props)) ->
  convertProperties ps props req
  = Ok ((props ++ map property_schema (combine ps cs))%list,
        (req ++ map key (filter (fun p => negb (isOptionalProperty (valueType p))) ps))%list).
Proof.
  revert props req cs. induction ps as [|p ps IH]; intros props req cs Hc Hn Hp Hf.
  - simpl in Hc. injection Hc as <-. simpl. rewrite !app_nil_r. reflexivity.
  - simpl in Hc. destruct (convertTypeReference (valueType p)) as [c|e] eqn:Ec;
      [|discriminate].
    simpl in Hc.
    destruct (mapM (fun p => convertTypeReference (valueType p)) ps) as [cs'|e] eqn:Ecs;
      [|discriminate].
    simpl in Hc. injection Hc as <-.
    inversion Hn as [|? ? Hk Hns]; subst. inversion Hp as [|? ? Hp1 Hps]; subst.
    simpl. rewrite Ec. simpl.
    unfold assign. destruct (String.eqb (key p) "__proto__") eqn:Eq.
    { apply String.eqb_eq in Eq. contradiction. }
    rewrite (attach_description _ _ _ Ec).
    rewrite define_fresh by (apply Hf; simpl; tauto).
    rewrite (IH _ _ cs' eq_refl Hns Hps).
    + f_equal. f_equal.
      * rewrite <- app_assoc. reflexivity.
      * destruct (isOptionalProperty (valueType p)); simpl;
          [reflexivity|rewrite <- app_assoc; reflexivity].
    + intros p' Hin. rewrite map_app, in_app_iff. simpl.
      intros [H|[H|H]]; [exact (Hf p' (or_intror Hin) H)| |exact H].
      apply Hk. rewrite H. apply in_map, Hin.
Qed.

Lemma map_fst_combine {A B} (l : list A) (l' : list B) :
  length l' = length l -> map fst (combine l l') = l.
Proof.
  revert l'. induction l as [|x t IH]; intros [|y t'] H; simpl in *;
    try reflexivity; try discriminate.
  f_equal. apply IH. injection H as H. exact H.
Qed.

(** C4 (as amended): for an object whose property keys are pairwise
    distinct, none of them ["__proto__"] and none an array index, and whose
    property types all convert, the converted object's [properties] are
    seen in declared order, each key mapped to the conversion of its type
    with the property's docs appended as [description]; [required] lists,
    in declared order, the keys of the properties whose type is not an
    [optional] container. *)
Theorem convertObject_properties (o : ObjectTypeDeclaration) (dd : jsval)
  (cs : list jsobj)
  (Hconv : mapM (fun p => convertTypeReference (valueType p)) (properties o) = Ok cs)
  (Hnodup : NoDup (map key (properties o)))
  (Hproto : Forall (fun p => key p <> "__proto__") (properties o))
  (Hindex : Forall (fun p => is_array_index (key p) = false) (properties o)) :
  exists r P,
    convertObject o dd = Ok r
    /\ lookup "properties" r = Some (JObj P)
    /\ entries P = map property_schema (combine (properties o) cs)
    /\ lookup "required" r
       = Some (JArr (map JStr (map key (filter (fun p => negb (isOptionalProperty (valueType p)))
                                             (properties o))))).
Proof.
  unfold convertObject.
  rewrite (convertProperties_plain (properties o) [] [] cs Hconv Hnodup Hproto)
    by (intros; simpl; tauto).
  simpl.
  exists (match extends o with
          | [] => [("type", JStr "object"); ("description", dd);
                   ("properties", JObj (map property_schema (combine (properties o) cs)));
                   ("required", JArr (map JStr (map key (filter (fun p => negb (isOptionalProperty (valueType p))) (properties o)))))]
          | _ :: _ => assign [("type", JStr "object"); ("description", dd);
                   ("properties", JObj (map property_schema (combine (properties o) cs)));
                   ("required", JArr (map JStr (map key (filter (fun p => negb (isOptionalProperty (valueType p))) (properties o)))))]
                   "allOf" (JArr (map refObject (extends o)))
          end).
  exists (map property_schema (combine (properties o) cs)).
  assert (Hkeys : map fst (map property_schema (combine (properties o) cs))
                  = map key (properties o)).
  { rewrite map_map. unfold property_schema.
    rewrite <- (map_fst_combine (properties o) cs) at 2
      by exact (mapM_length _ _ _ Hconv).
    rewrite map_map. reflexivity. }
  split; [destruct (extends o); reflexivity|].
  split; [destruct (extends o); reflexivity|].
  split; [|destruct (extends o); reflexivity].
  apply entries_plain; rewrite Hkeys; [exact Hnodup|].
  apply Forall_map, Hindex.
Qed.


Lemma convertSingleUnionType_plain (discr : string) (v : SingleUnionType) (c : jsobj) :
  discr <> "__proto__" ->
  convertTypeReference (su_valueType v) = Ok c ->
  convertSingleUnionType discr v = Ok (match union_variant_schema discr (v, c) with
                                      | JObj o => o
                                      | _ => []
                                      end).
Proof.
  intros Hd Hc. unfold convertSingleUnionType, union_variant_schema.
  rewrite Hc. simpl. unfold assign.
  destruct (String.eqb discr "__proto__") eqn:E;
    [apply String.eqb_eq in E; contradiction|].
  simpl. rewrite String.eqb_refl.
  destruct (su_valueType v); reflexivity.
Qed.

(** C5 (as amended): for a union whose discriminant is not ["__proto__"]
    and whose variant types all convert, the result is [oneOf] with one
    entry per variant in declared order, then [description]; a [named]
    variant gives [allOf] of the [$ref] and an object whose single property
    is the discriminant tagged with the string enum of the variant's value,
    any other variant gives an object whose single property, under the
    discriminant key, is the converted value type. *)
Theorem convertUnion_variants (u : UnionTypeDeclaration) (dd : jsval)
  (cs : list jsobj)
  (Hconv : mapM (fun v => convertTypeReference (su_valueType v)) (types u) = Ok cs)
  (Hd : discriminant u <> "__proto__") :
  convertUnion u dd
  = Ok [("oneOf", JArr (map (union_variant_schema (discriminant u))
                            (combine (types u) cs)));
        ("description", dd)].
Proof.
  unfold convertUnion.
  assert (H : mapM (convertSingleUnionType (discriminant u)) (types u)
              = Ok (map (fun vc => match union_variant_schema (discriminant u) vc with
                                   | JObj o => o
                                   | _ => []
                                   end) (combine (types u) cs))).
  { revert cs Hconv. induction (types u) as [|v vs IH]; intros cs Hconv.
    - simpl in Hconv. injection Hconv as <-. reflexivity.
    - simpl in Hconv.
      destruct (convertTypeReference (su_valueType v)) as [c|e] eqn:Ec; [|discriminate].
      simpl in Hconv.
      destruct (mapM (fun v => convertTypeReference (su_valueType v)) vs) as [cs'|e];
        [|discriminate].
      simpl in Hconv. injection Hconv as <-.
      simpl. rewrite (convertSingleUnionType_plain _ _ _ Hd Ec). simpl.
      rewrite (IH cs' eq_refl). reflexivity. }
  rewrite H. simpl. f_equal. f_equal. f_equal. f_equal.
  rewrite map_map. apply map_ext. intros [v c]. unfold union_variant_schema.
  destruct (su_valueType v); reflexivity.
Qed.

(** ** Security requirements *)

Lemma list_ascii_of_string_append (a b : string) :
  list_ascii_of_string (a ++ b) = (list_ascii_of_string a ++ list_ascii_of_string b)%list.
Proof. induction a as [|c a IH]; simpl; [reflexivity|]. rewrite IH. reflexivity. Qed.

Lemma digits_val_none (acc : N) (l : list ascii) (x : ascii) :
  In x l -> digit_val x = None -> digits_val acc l = None.
Proof.
  revert acc. induction l as [|c t IH]; intros acc Hin Hx; [contradiction|].
  simpl. destruct Hin as [<-|Hin]; [rewrite Hx; reflexivity|].
  destruct (digit_val c); [apply IH; assumption|reflexivity].
Qed.

(** A key ending in ["Auth"] is no array index. *)
Lemma auth_name_not_index (h : string) : is_array_index (h ++ "Auth") = false.
Proof.
  unfold is_array_index, array_index. rewrite list_ascii_of_string_append.
  assert (Hd : forall acc l, digits_val acc (l ++ list_ascii_of_string "Auth")%list = None).
  { intros acc l. apply (digits_val_none _ _ "A"%char); [|reflexivity].
    apply in_app_iff. right. simpl. tauto. }
  destruct (list_ascii_of_string h) as [|c [|c' l]]; simpl; [reflexivity| |].
  - destruct (Ascii.eqb c "0"); [reflexivity|].
    pose proof (Hd 0%N [c]) as H. simpl in H. rewrite H. reflexivity.
  - destruct (Ascii.eqb c "0"); [reflexivity|].
    pose proof (Hd 0%N (c :: c' :: l)) as H. simpl in H. rewrite H. reflexivity.
Qed.

Lemma auth_name_shape (s : AuthScheme) (n : string) :
  getNameForAuthScheme s = Ok n -> is_array_index n = false.
Proof.
  destruct s as [| |h|tag]; simpl; intros H; injection H as <- || discriminate H;
    try reflexivity.
  apply auth_name_not_index.
Qed.

Lemma in_keys_define (o : jsobj) (k x : string) (v : jsval) :
  In x (map fst (define o k v)) -> x = k \/ In x (map fst o).
Proof.
  induction o as [|[k' v'] t IH]; simpl.
  - intros [H|[]]; left; symmetry; exact H.
  - destruct (String.eqb k k'); simpl; [tauto|].
    intros [H|H]; [tauto|]. destruct (IH H); tauto.
Qed.

Lemma nodup_define (o : jsobj) (k : string) (v : jsval) :
  NoDup (map fst o) -> NoDup (map fst (define o k v)).
Proof.
  induction o as [|[k' v'] t IH]; simpl; intros H.
  - repeat constructor. simpl; tauto.
  - inversion H as [|? ? Hk Ht]; subst.
    destruct (String.eqb k k') eqn:E; simpl; [constructor; assumption|].
    constructor; [|apply IH, Ht].
    intros Hin. apply in_keys_define in Hin. destruct Hin as [->|Hin];
      [rewrite String.eqb_refl in E; discriminate|contradiction].
Qed.

Lemma index_free_define (o : jsobj) (k : string) (v : jsval) :
  is_array_index k = false ->
  Forall (fun k => is_array_index k = false) (map fst o) ->
  Forall (fun k => is_array_index k = false) (map fst (define o k v)).
Proof.
  intros Hk Ho. apply Forall_forall. intros x Hx.
  apply in_keys_define in Hx. destruct Hx as [->|Hx]; [exact Hk|].
  rewrite Forall_forall in Ho. apply Ho, Hx.
Qed.

Lemma reduceAll_lookup (ss : list AuthScheme) (names : list string) (acc : jsobj) :
  mapM getNameForAuthScheme ss = Ok names ->
  NoDup (map fst acc) ->
  Forall (fun k => is_array_index k = false) (map fst acc) ->
  exists R, reduceAll acc ss = Ok R
    /\ forall k, lookup k R = if existsb (String.eqb k) names
                              then Some (JArr []) else lookup k acc.
Proof.
  revert names acc. induction ss as [|s t IH]; intros names acc Hm Hn Hi.
  - simpl in Hm. injection Hm as <-. exists acc. split; reflexivity.
  - simpl in Hm. destruct (getNameForAuthScheme s) as [n|e] eqn:Es; [|discriminate].
    simpl in Hm. destruct (mapM getNameForAuthScheme t) as [ns|e]; [|discriminate].
    simpl in Hm. injection Hm as <-.
    simpl. rewrite Es. simpl. rewrite (spread_plain acc Hn Hi).
    destruct (IH ns (define acc n (JArr [])) eq_refl (nodup_define _ _ _ Hn)
                 (index_free_define _ _ _ (auth_name_shape _ _ Es) Hi))
      as (R & HR & Hl).
    exists R. split; [exact HR|]. intros k. rewrite Hl, lookup_define. simpl.
    destruct (String.eqb k n), (existsb (String.eqb k) ns); reflexivity.
Qed.

Lemma reduceAll_fresh (ss : list AuthScheme) (names : list string) (acc : jsobj) :
  mapM getNameForAuthScheme ss = Ok names ->
  NoDup names ->
  NoDup (map fst acc) ->
  Forall (fun k => is_array_index k = false) (map fst acc) ->
  (forall n, In n names -> ~ In n (map fst acc)) ->
  reduceAll acc ss = Ok (acc ++ map (fun n => (n, JArr [])) names)%list.
Proof.
  revert names acc. induction ss as [|s t IH]; intros names acc Hm Hnd Hn Hi Hf.
  - simpl in Hm. injection Hm as <-. rewrite app_nil_r. reflexivity.
  - simpl in Hm. destruct (getNameForAuthScheme s) as [n|e] eqn:Es; [|discriminate].
    simpl in Hm. destruct (mapM getNameForAuthScheme t) as [ns|e]; [|discriminate].
    simpl in Hm. injection Hm as <-.
    inversion Hnd as [|? ? Hn1 Hns]; subst.
    simpl. rewrite Es. simpl. rewrite (spread_plain acc Hn Hi).
    rewrite define_fresh by (apply Hf; simpl; tauto).
    rewrite (IH ns); [rewrite <- app_assoc; reflexivity|reflexivity|exact Hns| | |].
    + rewrite <- define_fresh by (apply Hf; simpl; tauto). apply nodup_define, Hn.
    + rewrite <- define_fresh by (apply Hf; simpl; tauto).
      apply index_free_define; [exact (auth_name_shape _ _ Es)|exact Hi].
    + intros m Hm. rewrite map_app, in_app_iff. simpl.
      intros [H|[H|H]]; [exact (Hf m (or_intror Hm) H)|subst; contradiction|exact H].
Qed.

(** C7: when every scheme has a known kind (its name is computed),
    [all] gives a single requirement object mapping every scheme name, and
    nothing else, to the empty scope list (exactly the names in declared
    order when they are distinct); [any] gives one single-key requirement
    object per scheme, in declared order. *)
Theorem endpoint_security_modes (ss : list AuthScheme) (names : list string)
  (Hnames : mapM getNameForAuthScheme ss = Ok names) :
  (exists R,
      constructEndpointSecurity {| requirement := ALL; schemes := ss |} = Ok [R]
      /\ (forall k, lookup k R = if existsb (String.eqb k) names
                                 then Some (JArr []) else None)
      /\ (NoDup names -> R = map (fun n => (n, JArr [])) names))
  /\ constructEndpointSecurity {| requirement := ANY; schemes := ss |}
     = Ok (map (fun n => [(n, JArr [])]) names).
Proof.
  split.
  - destruct (reduceAll_lookup ss names [] Hnames (NoDup_nil _) (Forall_nil _))
      as (R & HR & Hl).
    exists R. unfold constructEndpointSecurity. simpl. rewrite HR. simpl.
    split; [reflexivity|]. split.
    + intros k. rewrite Hl. destruct (existsb (String.eqb k) names); reflexivity.
    + intros Hnd.
      rewrite (reduceAll_fresh ss names [] Hnames Hnd (NoDup_nil _) (Forall_nil _))
        in HR by (intros; simpl; tauto).
      injection HR as <-. reflexivity.
  - unfold constructEndpointSecurity. simpl. revert names Hnames.
    induction ss as [|s t IH]; intros names Hm.
    + simpl in Hm. injection Hm as <-. reflexivity.
    + simpl in Hm. destruct (getNameForAuthScheme s) as [n|e] eqn:Es; [|discriminate].
      simpl in Hm. destruct (mapM getNameForAuthScheme t) as [ns|e]; [|discriminate].
      simpl in Hm. injection Hm as <-.
      simpl. rewrite Es. simpl. rewrite (IH ns eq_refl). reflexivity.
Qed.

(** ** The matcher *)






















(** ** Witnesses and counterexamples *)

(** C4 fails on the JS semantics of plain objects: an array-index key is
    enumerated first, a ["__proto__"] key replaces the prototype and leaves
    no own property, and a repeated key keeps one entry but is listed twice
    in [required]. *)
Lemma convertObject_properties_counterexample :
  (exists r P,
      convertObject index_key_object JUndef = Ok r
      /\ lookup "properties" r = Some (JObj P)
      /\ map fst (entries P) = ["1"; "b"]
      /\ map key (properties index_key_object) = ["b"; "1"])
  /\ (exists r P,
      convertObject proto_key_object JUndef = Ok r
      /\ lookup "properties" r = Some (JObj P)
      /\ entries P = []
      /\ lookup "required" r = Some (JArr [JStr "__proto__"]))
  /\ (exists r P,
      convertObject duplicate_key_object JUndef = Ok r
      /\ lookup "properties" r = Some (JObj P)
      /\ map fst (entries P) = ["a"]
      /\ lookup "required" r = Some (JArr [JStr "a"; JStr "a"])).
Proof.
  split; [|split]; do 2 eexists;
    (split; [vm_compute; reflexivity|]);
    (split; [vm_compute; reflexivity|]); vm_compute; split; reflexivity.
Qed.

Lemma convertObject_properties_witness :
  mapM (fun p => convertTypeReference (valueType p)) (properties sample_object)
    = Ok [[("type", JStr "string")]; [("type", JStr "string")]]
  /\ NoDup (map key (properties sample_object))
  /\ Forall (fun p => key p <> "__proto__") (properties sample_object)
  /\ Forall (fun p => is_array_index (key p) = false) (properties sample_object)
  /\ exists r P,
      convertObject sample_object JUndef = Ok r
      /\ lookup "properties" r = Some (JObj P)
      /\ entries P = map property_schema
                       (combine (properties sample_object)
                                [[("type", JStr "string")]; [("type", JStr "string")]])
      /\ lookup "required" r
         = Some (JArr (map JStr (map key (filter (fun p => negb (isOptionalProperty (valueType p)))
                                               (properties sample_object))))).
Proof.
  assert (Hc : mapM (fun p => convertTypeReference (valueType p)) (properties sample_object)
               = Ok [[("type", JStr "string")]; [("type", JStr "string")]])
    by (vm_compute; reflexivity).
  assert (Hn : NoDup (map key (properties sample_object)))
    by (simpl; repeat constructor; simpl; intuition discriminate).
  assert (Hp : Forall (fun p => key p <> "__proto__") (properties sample_object))
    by (simpl; repeat constructor; simpl; discriminate).
  assert (Hi : Forall (fun p => is_array_index (key p) = false) (properties sample_object))
    by (simpl; repeat constructor).
  split; [exact Hc|]. split; [exact Hn|]. split; [exact Hp|]. split; [exact Hi|].
  exact (convertObject_properties sample_object JUndef _ Hc Hn Hp Hi).
Defined.

(** C5 fails for the discriminant ["__proto__"]: the assignment replaces
    the prototype, so the tag object of a named variant has no property. *)
Lemma convertUnion_variants_counterexample :
  convertUnion proto_union JUndef
  = Ok [("oneOf",
         JArr [JObj [("type", JStr "object");
                     ("allOf", JArr [JObj [("$ref", JStr "#/components/schemas/Dog")];
                                     JObj [("type", JStr "object");
                                           ("properties", JObj [])]])]]);
        ("description", JUndef)]
  /\ convertUnion proto_union JUndef
     <> Ok [("oneOf", JArr (map (union_variant_schema (discriminant proto_union))
                                (combine (types proto_union)
                                         [[("$ref", JStr "#/components/schemas/Dog")]])));
            ("description", JUndef)].
Proof.
  split; [vm_compute; reflexivity|]. vm_compute. discriminate.
Qed.

Lemma convertUnion_variants_witness :
  mapM (fun v => convertTypeReference (su_valueType v)) (types sample_union)
    = Ok [[("$ref", JStr "#/components/schemas/Dog")]; [("type", JStr "integer")]]
  /\ discriminant sample_union <> "__proto__"
  /\ convertUnion sample_union JUndef
     = Ok [("oneOf", JArr (map (union_variant_schema (discriminant sample_union))
                               (combine (types sample_union)
                                        [[("$ref", JStr "#/components/schemas/Dog")];
                                         [("type", JStr "integer")]])));
           ("description", JUndef)].
Proof.
  assert (Hc : mapM (fun v => convertTypeReference (su_valueType v)) (types sample_union)
               = Ok [[("$ref", JStr "#/components/schemas/Dog")]; [("type", JStr "integer")]])
    by (vm_compute; reflexivity).
  assert (Hd : discriminant sample_union <> "__proto__") by (vm_compute; discriminate).
  split; [exact Hc|]. split; [exact Hd|].
  exact (convertUnion_variants sample_union JUndef _ Hc Hd).
Defined.

Lemma convertObject_extends_witness :
  exists r,
    convertObject sample_object JUndef = Ok r
    /\ exists P R,
      r = ([("type", JStr "object"); ("description", JUndef);
            ("properties", JObj P); ("required", JArr R)]
           ++ match extends sample_object with
              | [] => []
              | _ :: _ =>
                  [("allOf",
                    JArr (map (fun n => JObj [("$ref", JStr ("#/components/schemas/"
                                              ++ getNameFromDeclaredTypeName n))])
                              (extends sample_object)))]
              end)%list.
Proof.
  eexists. split; [vm_compute; reflexivity|].
  apply (convertObject_extends sample_object JUndef). vm_compute. reflexivity.
Defined.

Lemma endpoint_security_modes_witness :
  mapM getNameForAuthScheme [AS_bearer; AS_basic] = Ok ["BearerAuth"; "BasicAuth"]
  /\ (exists R,
      constructEndpointSecurity {| requirement := ALL; schemes := [AS_bearer; AS_basic] |}
        = Ok [R]
      /\ (forall k, lookup k R = if existsb (String.eqb k) ["BearerAuth"; "BasicAuth"]
                                 then Some (JArr []) else None)
      /\ (NoDup ["BearerAuth"; "BasicAuth"] ->
          R = map (fun n => (n, JArr [])) ["BearerAuth"; "BasicAuth"]))
  /\ constructEndpointSecurity {| requirement := ANY; schemes := [AS_bearer; AS_basic] |}
     = Ok (map (fun n => [(n, JArr [])]) ["BearerAuth"; "BasicAuth"]).
Proof.
  assert (H : mapM getNameForAuthScheme [AS_bearer; AS_basic] = Ok ["BearerAuth"; "BasicAuth"])
    by reflexivity.
  split; [exact H|]. exact (endpoint_security_modes _ _ H).
Defined.

(** C8 fails for [constructSecuritySchemes], which never reads the
    requirement mode: an unknown mode goes through. *)
Lemma converters_fail_exactly_on_unknown_tags_counterexample :
  wf_requirement (AuthSchemesRequirement_unknown "NONE") = false
  /\ constructSecuritySchemes
       {| requirement := AuthSchemesRequirement_unknown "NONE"; schemes := [AS_bearer] |}
     = Ok [("BearerAuth", JObj [("type", JStr "http"); ("scheme", JStr "bearer")])].
Proof. split; reflexivity. Qed.



Lemma convertObject_fields_witness :
  exists r,
    convertObject sample_optional_object JUndef = Ok r
    /\ firstn 4 (map fst r) = ["type"; "description"; "properties"; "required"]
    /\ lookup "type" r = Some (JStr "object")
    /\ lookup "description" r = Some JUndef
    /\ (properties sample_optional_object = [] ->
        lookup "properties" r = Some (JObj []) /\ lookup "required" r = Some (JArr []))
    /\ (Forall (fun p => isOptionalProperty (valueType p) = true)
               (properties sample_optional_object) ->
        lookup "required" r = Some (JArr [])).
Proof.
  eexists. split; [vm_compute; reflexivity|].
  apply (convertObject_fields sample_optional_object JUndef). vm_compute. reflexivity.
Defined.

(** * Further properties of the converters *)

(** X1: an alias converts to the conversion of its target with
    [description] appended as the last field; the target's own fields are
    kept unchanged and in order. *)
Theorem convertAlias_appends_description (a : AliasTypeDeclaration) (d : jsval)
  (c : jsobj) (H : convertTypeReference (aliasOf a) = Ok c) :
  convertAlias a d = Ok (c ++ [("description", d)])%list.
Proof.
  unfold convertAlias. rewrite H. simpl.
  rewrite (attach_description _ _ _ H). reflexivity.
Qed.

(** X2: a converted type reference is either exactly one [$ref] field or an
    inline schema without [$ref], never both. *)
Theorem convertTypeReference_ref_or_inline (t : TypeReference) (c : jsobj)
  (H : convertTypeReference t = Ok c) :
  map fst c = ["$ref"] \/ ~ In "$ref" (map fst c).
Proof.
  apply convertTypeReference_keys in H. unfold reference_key_shapes in H.
  simpl in H. repeat destruct H as [H|H]; try contradiction; rewrite <- H;
    [left; reflexivity|right; simpl; intuition discriminate ..].
Qed.

(** X3: conversion forgets [set] versus [list], every [optional] wrapper at
    any depth, the key type of a [map], and [unknown] versus [void]. *)
Theorem convertTypeReference_normalize (t : TypeReference) :
  convertTypeReference (normalize_ref t) = convertTypeReference t.
Proof.
  apply (TypeReference_mut
           (fun t => convertTypeReference (normalize_ref t) = convertTypeReference t)
           (fun c => convertTypeReference (normalize_container c) = convertContainerType c));
    intros; simpl; try reflexivity; try assumption;
    (* list, set, map *)
    simpl in *; first [rewrite H0; reflexivity | rewrite H; reflexivity].
Qed.

(** X4: the schema of a variant whose type is not a [named] reference does
    not depend on its discriminant value: the tag written first is
    overwritten by the payload. *)
Theorem convertSingleUnionType_ignores_value (discr : string) (v v' : SingleUnionType)
  (Hty : su_valueType v = su_valueType v')
  (Hnn : forall n, su_valueType v <> TR_named n) :
  convertSingleUnionType discr v = convertSingleUnionType discr v'.
Proof.
  unfold convertSingleUnionType. rewrite <- Hty.
  destruct (convertTypeReference (su_valueType v)) as [c|e]; [|reflexivity]. simpl.
  destruct (su_valueType v);
    try (exfalso; eapply Hnn; reflexivity);
    unfold assign; destruct (String.eqb discr "__proto__"); simpl;
    try rewrite String.eqb_refl; reflexivity.
Qed.

Lemma convertProperties_required_keys (ps : list ObjectProperty) (props : jsobj)
  (req : list string) (P : jsobj) (R : list string) :
  (forall k, In k req -> k = "__proto__" \/ lookup k props <> None) ->
  convertProperties ps props req = Ok (P, R) ->
  forall k, In k R -> k = "__proto__" \/ lookup k P <> None.
Proof.
  revert props req. induction ps as [|p ps IH]; intros props req Hinv H.
  - simpl in H. injection H as <- <-. exact Hinv.
  - simpl in H. destruct (convertTypeReference (valueType p)) as [c|e]; [|discriminate].
    simpl in H. refine (IH _ _ _ H). intros k Hk.
    unfold assign. destruct (String.eqb (key p) "__proto__") eqn:Ep.
    + apply String.eqb_eq in Ep.
      destruct (isOptionalProperty (valueType p)); [exact (Hinv k Hk)|].
      apply in_app_iff in Hk. destruct Hk as [Hk|[<-|[]]]; [exact (Hinv k Hk)|left; exact Ep].
    + rewrite lookup_define.
      destruct (String.eqb k (key p)) eqn:Ek; [right; discriminate|].
      destruct (isOptionalProperty (valueType p)); [exact (Hinv k Hk)|].
      apply in_app_iff in Hk. destruct Hk as [Hk|[<-|[]]]; [exact (Hinv k Hk)|].
      rewrite String.eqb_refl in Ek. discriminate.
Qed.

(** X5: every key listed in an object's [required] is an own property of
    its [properties], except a ["__proto__"] key, which the assignment turns
    into the prototype. *)
Theorem convertObject_required_in_properties (o : ObjectTypeDeclaration) (d : jsval)
  (r : jsobj) (H : convertObject o d = Ok r) :
  exists P R,
    lookup "properties" r = Some (JObj P)
    /\ lookup "required" r = Some (JArr (map JStr R))
    /\ forall k, In k R -> k = "__proto__" \/ lookup k P <> None.
Proof.
  unfold convertObject in H.
  destruct (convertProperties (properties o) [] []) as [[P R]|e] eqn:Ec; [|discriminate].
  simpl in H. exists P, R.
  assert (Hr : exists tl, r = ([("type", JStr "object"); ("description", d);
            ("properties", JObj P); ("required", JArr (map JStr R))] ++ tl)%list).
  { destruct (extends o); injection H as <-; eexists; reflexivity. }
  destruct Hr as [tl ->].
  split; [reflexivity|]. split; [reflexivity|].
  apply (convertProperties_required_keys _ _ _ _ _ (fun k (Hk : In k []) => False_ind _ Hk) Ec).
Qed.

Lemma auth_suffix_not_proto (h : string) : (h ++ "Auth") <> "__proto__".
Proof.
  intros H.
  do 9 (destruct h as [|? h]; simpl in H; [discriminate|injection H as _ H]).
  destruct h; discriminate.
Qed.

Lemma auth_name_not_proto (s : AuthScheme) (n : string) :
  getNameForAuthScheme s = Ok n -> n <> "__proto__".
Proof.
  destruct s as [| |h|tag]; simpl; intros H; injection H as <- || discriminate H;
    try discriminate.
  apply auth_suffix_not_proto.
Qed.

Lemma find_app {A} (f : A -> bool) (l l' : list A) :
  find f (l ++ l') = match find f l with Some x => Some x | None => find f l' end.
Proof. induction l as [|x t IH]; simpl; [reflexivity|]. destruct (f x); [reflexivity|exact IH]. Qed.

Lemma securitySchemesLoop_lookup (ss : list AuthScheme) (names : list string)
  (objs : list jsobj) (acc : jsobj) :
  mapM getNameForAuthScheme ss = Ok names ->
  mapM securitySchemeObject ss = Ok objs ->
  exists R, securitySchemesLoop acc ss = Ok R
    /\ forall k, lookup k R = match last_binding k (combine names objs) with
                              | Some v => Some v
                              | None => lookup k acc
                              end.
Proof.
  revert names objs acc. induction ss as [|s t IH]; intros names objs acc Hn Ho.
  - simpl in Hn, Ho. injection Hn as <-. injection Ho as <-.
    exists acc. split; reflexivity.
  - simpl in Hn, Ho.
    destruct (getNameForAuthScheme s) as [n|e] eqn:Es; [|discriminate]. simpl in Hn.
    destruct (mapM getNameForAuthScheme t) as [ns|e]; [|discriminate]. simpl in Hn.
    injection Hn as <-.
    destruct (securitySchemeObject s) as [v|e] eqn:Ev; [|discriminate]. simpl in Ho.
    destruct (mapM securitySchemeObject t) as [vs|e]; [|discriminate]. simpl in Ho.
    injection Ho as <-.
    destruct (IH ns vs (assign acc n (JObj v)) eq_refl eq_refl) as (R & HR & Hl).
    exists R. simpl. rewrite Es, Ev. simpl. split; [exact HR|].
    intros k. rewrite Hl. unfold last_binding. simpl. rewrite find_app.
    destruct (find (fun p => String.eqb k (fst p)) (rev (combine ns vs))); [reflexivity|].
    simpl. unfold assign.
    destruct (String.eqb n "__proto__") eqn:Ep;
      [apply String.eqb_eq in Ep; exfalso; exact (auth_name_not_proto _ _ Es Ep)|].
    rewrite lookup_define. destruct (String.eqb k n); reflexivity.
Qed.

Lemma mapM_names_objects (ss : list AuthScheme) (names : list string) :
  mapM getNameForAuthScheme ss = Ok names ->
  exists objs, mapM securitySchemeObject ss = Ok objs.
Proof.
  revert names. induction ss as [|s t IH]; intros names H; [eexists; reflexivity|].
  simpl in H. destruct s as [| |h|tag]; simpl in *; try discriminate;
    destruct (mapM getNameForAuthScheme t) as [ns|e]; try discriminate;
    destruct (IH ns eq_refl) as [objs ->]; eexists; reflexivity.
Qed.

(** X6: [constructSecuritySchemes] maps each computed scheme name to the
    security-scheme object of the last scheme with that name (last write
    wins), and has no other key. *)
Theorem constructSecuritySchemes_last_wins (a : ApiAuth) (names : list string)
  (objs : list jsobj)
  (Hn : mapM getNameForAuthScheme (schemes a) = Ok names)
  (Ho : mapM securitySchemeObject (schemes a) = Ok objs) :
  exists R, constructSecuritySchemes a = Ok R
    /\ forall k, lookup k R = last_binding k (combine names objs).
Proof.
  destruct (securitySchemesLoop_lookup _ _ _ [] Hn Ho) as (R & HR & Hl).
  exists R. split; [exact HR|]. intros k. rewrite Hl.
  destruct (last_binding k (combine names objs)); reflexivity.
Qed.

Lemma securitySchemesLoop_fresh (ss : list AuthScheme) (names : list string)
  (objs : list jsobj) (acc : jsobj) :
  mapM getNameForAuthScheme ss = Ok names ->
  mapM securitySchemeObject ss = Ok objs ->
  NoDup names ->
  (forall n, In n names -> ~ In n (map fst acc)) ->
  securitySchemesLoop acc ss
  = Ok (acc ++ map (fun p => (fst p, JObj (snd p))) (combine names objs))%list.
Proof.
  revert names objs acc. induction ss as [|s t IH]; intros names objs acc Hn Ho Hnd Hf.
  - simpl in Hn, Ho. injection Hn as <-. injection Ho as <-.
    simpl. rewrite app_nil_r. reflexivity.
  - simpl in Hn, Ho.
    destruct (getNameForAuthScheme s) as [n|e] eqn:Es; [|discriminate]. simpl in Hn.
    destruct (mapM getNameForAuthScheme t) as [ns|e]; [|discriminate]. simpl in Hn.
    injection Hn as <-.
    destruct (securitySchemeObject s) as [v|e] eqn:Ev; [|discriminate]. simpl in Ho.
    destruct (mapM securitySchemeObject t) as [vs|e]; [|discriminate]. simpl in Ho.
    injection Ho as <-.
    inversion Hnd as [|? ? Hn1 Hns]; subst.
    simpl. rewrite Es, Ev. simpl. unfold assign.
    destruct (String.eqb n "__proto__") eqn:Ep;
      [apply String.eqb_eq in Ep; exfalso; exact (auth_name_not_proto _ _ Es Ep)|].
    rewrite define_fresh by (apply Hf; simpl; tauto).
    rewrite (IH ns vs); [rewrite <- app_assoc; reflexivity|reflexivity|reflexivity|exact Hns|].
    intros m Hm. rewrite map_app, in_app_iff. simpl.
    intros [H|[H|H]]; [exact (Hf m (or_intror Hm) H)|subst; contradiction|exact H].
Qed.

(** X7: when the computed scheme names are distinct, [constructSecuritySchemes]
    holds exactly one entry per scheme, in declared order. *)
Theorem constructSecuritySchemes_in_order (a : ApiAuth) (names : list string)
  (objs : list jsobj)
  (Hn : mapM getNameForAuthScheme (schemes a) = Ok names)
  (Ho : mapM securitySchemeObject (schemes a) = Ok objs)
  (Hnd : NoDup names) :
  constructSecuritySchemes a
  = Ok (map (fun p => (fst p, JObj (snd p))) (combine names objs)).
Proof.
  unfold constructSecuritySchemes.
  rewrite (securitySchemesLoop_fresh _ _ _ [] Hn Ho Hnd) by (intros; simpl; tauto).
  reflexivity.
Qed.

Lemma in_combine_exists {A B} (l : list A) (l' : list B) (x : A) :
  length l' = length l -> In x l -> exists y, In (x, y) (combine l l').
Proof.
  revert l'. induction l as [|a t IH]; intros [|b t'] Hl Hx; simpl in *;
    try contradiction; try discriminate.
  destruct Hx as [<-|Hx]; [exists b; left; reflexivity|].
  injection Hl as Hl. destruct (IH t' Hl Hx) as [y Hy]. exists y. right. exact Hy.
Qed.

Lemma last_binding_defined (k : string) (names : list string) (objs : list jsobj) :
  length objs = length names ->
  (last_binding k (combine names objs) <> None <-> existsb (String.eqb k) names = true).
Proof.
  intros Hl. unfold last_binding. rewrite existsb_exists. split.
  - destruct (find (fun p => String.eqb k (fst p)) (rev (combine names objs))) as [p|] eqn:E;
      [|tauto].
    intros _. apply find_some in E. destruct E as [Hin Hk].
    apply in_rev in Hin. destruct p as [k' o]. apply in_combine_l in Hin.
    exists k'. split; [exact Hin|]. exact Hk.
  - intros (x & Hx & Hk). apply String.eqb_eq in Hk. subst x.
    destruct (in_combine_exists names objs k Hl Hx) as [o Ho].
    destruct (find (fun p => String.eqb k (fst p)) (rev (combine names objs))) eqn:E;
      [discriminate|].
    apply in_rev in Ho. apply (find_none _ _ E (k, o)) in Ho.
    simpl in Ho. rewrite String.eqb_refl in Ho. discriminate.
Qed.

Lemma any_requirements (ss : list AuthScheme) (names : list string) :
  mapM getNameForAuthScheme ss = Ok names ->
  mapM (fun s => n <- getNameForAuthScheme s;; Ok [(n, JArr [])]) ss
  = Ok (map (fun n => [(n, JArr [])]) names).
Proof.
  revert names. induction ss as [|s t IH]; intros names Hm.
  - simpl in Hm. injection Hm as <-. reflexivity.
  - simpl in Hm. destruct (getNameForAuthScheme s) as [n|e] eqn:Es; [|discriminate].
    simpl in Hm. destruct (mapM getNameForAuthScheme t) as [ns|e]; [|discriminate].
    simpl in Hm. injection Hm as <-.
    simpl. rewrite Es. simpl. rewrite (IH ns eq_refl). reflexivity.
Qed.

(** X8: the security requirements of [constructEndpointSecurity] only name
    schemes that [constructSecuritySchemes] declares, and in [all] mode the
    single requirement names every declared scheme. *)
Theorem endpoint_security_names_declared_schemes (a : ApiAuth) (names : list string)
  (Hn : mapM getNameForAuthScheme (schemes a) = Ok names) :
  exists SS, constructSecuritySchemes a = Ok SS
    /\ (forall reqs R k, constructEndpointSecurity a = Ok reqs -> In R reqs ->
          lookup k R <> None -> lookup k SS <> None)
    /\ (requirement a = ALL -> exists R, constructEndpointSecurity a = Ok [R]
          /\ forall k, lookup k R <> None <-> lookup k SS <> None).
Proof.
  destruct (mapM_names_objects _ _ Hn) as [objs Ho].
  assert (Hl : length objs = length names)
    by (rewrite (mapM_length _ _ _ Ho), (mapM_length _ _ _ Hn); reflexivity).
  destruct (securitySchemesLoop_lookup _ _ _ [] Hn Ho) as (SS & HSS & HL).
  assert (HD : forall k, lookup k SS <> None <-> existsb (String.eqb k) names = true).
  { intros k. rewrite HL, <- (last_binding_defined k names objs Hl).
    destruct (last_binding k (combine names objs)); simpl; split; congruence. }
  destruct (reduceAll_lookup (schemes a) names [] Hn (NoDup_nil _) (Forall_nil _))
    as (R & HR & HRl).
  assert (HRD : forall k, lookup k R <> None <-> existsb (String.eqb k) names = true).
  { intros k. rewrite HRl. simpl.
    destruct (existsb (String.eqb k) names); split; congruence. }
  exists SS. split; [exact HSS|]. split.
  - intros reqs R' k Hc Hin Hk. apply HD.
    unfold constructEndpointSecurity in Hc.
    destruct (requirement a) as [| |tag]; [| |discriminate].
    + rewrite HR in Hc. simpl in Hc. injection Hc as <-.
      destruct Hin as [<-|[]]. apply HRD, Hk.
    + rewrite (any_requirements _ _ Hn) in Hc. injection Hc as <-.
      apply in_map_iff in Hin. destruct Hin as (n & <- & Hin).
      simpl in Hk. destruct (String.eqb k n) eqn:E; [|contradiction].
      apply existsb_exists. exists n. split; [exact Hin|exact E].
  - intros Hr. exists R. unfold constructEndpointSecurity. rewrite Hr, HR.
    split; [reflexivity|]. intros k. rewrite HRD, HD. reflexivity.
Qed.

Lemma convertProperties_required (ps : list ObjectProperty) (props : jsobj)
  (req : list string) (P : jsobj) (R : list string) :
  convertProperties ps props req = Ok (P, R) ->
  R = (req ++ map key (filter (fun p => negb (isOptionalProperty (valueType p))) ps))%list.
Proof.
  revert props req. induction ps as [|p ps IH]; intros props req H.
  - simpl in H. injection H as <- <-. rewrite app_nil_r. reflexivity.
  - simpl in H. destruct (convertTypeReference (valueType p)) as [c|e]; [|discriminate].
    simpl in H. rewrite (IH _ _ H). simpl.
    destruct (isOptionalProperty (valueType p)); simpl;
      [reflexivity|rewrite <- app_assoc; reflexivity].
Qed.

(** X9: an object's [required] lists, in declared order, the key of every
    property whose type is not an [optional] container, one entry per
    declaration: a key declared twice is listed twice. *)
Theorem convertObject_required_exact (o : ObjectTypeDeclaration) (d : jsval)
  (r : jsobj) (H : convertObject o d = Ok r) :
  lookup "required" r
  = Some (JArr (map JStr (map key (filter (fun p => negb (isOptionalProperty (valueType p)))
                                          (properties o))))).
Proof.
  unfold convertObject in H.
  destruct (convertProperties (properties o) [] []) as [[P R]|e] eqn:Ec; [|discriminate].
  simpl in H. apply convertProperties_required in Ec. simpl in Ec. subst R.
  destruct (extends o); injection H as <-; reflexivity.
Qed.

Lemma convertProperties_lookup (ps : list ObjectProperty) (props : jsobj)
  (req : list string) (P : jsobj) (R : list string) (k : string) :
  convertProperties ps props req = Ok (P, R) -> k <> "__proto__" ->
  lookup k P = match last_property k ps with
               | Some p => match convertTypeReference (valueType p) with
                           | Ok c => Some (described c (docs_val (docs p)))
                           | Err _ => None
                           end
               | None => lookup k props
               end.
Proof.
  unfold last_property. intros H Hk. revert props req H.
  induction ps as [|p ps IH]; intros props req H.
  - simpl in H. injection H as <- <-. reflexivity.
  - simpl in H. destruct (convertTypeReference (valueType p)) as [c|e] eqn:Ec;
      [|discriminate].
    simpl in H. rewrite (IH _ _ H). simpl. rewrite find_app.
    destruct (find (fun q => String.eqb k (key q)) (rev ps)); [reflexivity|].
    simpl. unfold assign.
    destruct (String.eqb k (key p)) eqn:Ekp.
    + apply String.eqb_eq in Ekp. subst k. rewrite Ec.
      destruct (String.eqb (key p) "__proto__") eqn:Ep;
        [apply String.eqb_eq in Ep; contradiction|].
      rewrite lookup_define, String.eqb_refl, (attach_description _ _ _ Ec). reflexivity.
    + destruct (String.eqb (key p) "__proto__"); [reflexivity|].
      rewrite lookup_define, Ekp. reflexivity.
Qed.

(** X10: in an object's [properties], a key other than ["__proto__"] maps
    to the converted type, with docs as [description], of the LAST property
    declared with that key, and a key no property declares is absent. *)
Theorem convertObject_property_last_wins (o : ObjectTypeDeclaration) (d : jsval)
  (r : jsobj) (k : string) (H : convertObject o d = Ok r) (Hk : k <> "__proto__") :
  exists P, lookup "properties" r = Some (JObj P)
    /\ lookup k P = match last_property k (properties o) with
                    | Some p => match convertTypeReference (valueType p) with
                                | Ok c => Some (described c (docs_val (docs p)))
                                | Err _ => None
                                end
                    | None => None
                    end.
Proof.
  unfold convertObject in H.
  destruct (convertProperties (properties o) [] []) as [[P R]|e] eqn:Ec; [|discriminate].
  simpl in H. exists P. split.
  - destruct (extends o); injection H as <-; reflexivity.
  - rewrite (convertProperties_lookup _ _ _ _ _ k Ec Hk).
    destruct (last_property k (properties o)); reflexivity.
Qed.

Lemma convertSingleUnionType_proto (s : SingleUnionType) (v : jsobj) :
  convertSingleUnionType "__proto__" s = Ok v ->
  v = [("type", JStr "object"); ("properties", JObj [])]
  \/ exists n, v = [("type", JStr "object");
                    ("allOf", JArr [refObject n;
                                    JObj [("type", JStr "object"); ("properties", JObj [])]])].
Proof.
  unfold convertSingleUnionType. destruct (convertTypeReference (su_valueType s));
    [|discriminate]. simpl.
  destruct (su_valueType s); intros H; injection H as <-;
    [left; reflexivity|right; eexists; reflexivity|left; reflexivity..].
Qed.

(** X11: a union whose discriminant is ["__proto__"] loses the discriminant
    in every variant: each [oneOf] entry's [properties] object is empty, so
    neither the tag nor a non-named variant's payload is kept. *)
Theorem convertUnion_proto_discriminant (u : UnionTypeDeclaration) (d : jsval)
  (r : jsobj) (Hd : discriminant u = "__proto__") (H : convertUnion u d = Ok r) :
  exists vs, r = [("oneOf", JArr (map JObj vs)); ("description", d)]
    /\ length vs = length (types u)
    /\ Forall (fun v =>
         v = [("type", JStr "object"); ("properties", JObj [])]
         \/ exists n, v = [("type", JStr "object");
                           ("allOf", JArr [refObject n;
                                           JObj [("type", JStr "object");
                                                 ("properties", JObj [])]])]) vs.
Proof.
  unfold convertUnion in H. rewrite Hd in H.
  destruct (mapM (convertSingleUnionType "__proto__") (types u)) as [vs|e] eqn:Em;
    [|discriminate].
  simpl in H. injection H as <-. exists vs. split; [reflexivity|].
  split; [exact (mapM_length _ _ _ Em)|].
  clear Hd. revert vs Em. induction (types u) as [|s t IH]; intros vs Em.
  - simpl in Em. injection Em as <-. constructor.
  - simpl in Em. destruct (convertSingleUnionType "__proto__" s) as [v|e] eqn:Es;
      [|discriminate].
    simpl in Em. destruct (mapM (convertSingleUnionType "__proto__") t) as [vs'|e];
      [|discriminate].
    simpl in Em. injection Em as <-. constructor; [exact (convertSingleUnionType_proto _ _ Es)|].
    apply IH. reflexivity.
Qed.

(** X12: a converted type reference carries, at its top level, only an
    OpenAPI primitive [type] and only one of the formats [date-time],
    [double], [int64], [uuid]. *)
Theorem convertTypeReference_type_format (t : TypeReference) (c : jsobj)
  (H : convertTypeReference t = Ok c) :
  (forall v, lookup "type" c = Some v -> In v schema_types)
  /\ (forall v, lookup "format" c = Some v -> In v schema_formats).
Proof.
  revert c H.
  apply (TypeReference_mut
           (fun t => forall c, convertTypeReference t = Ok c ->
              (forall v, lookup "type" c = Some v -> In v schema_types)
              /\ (forall v, lookup "format" c = Some v -> In v schema_formats))
           (fun ct => forall c, convertContainerType ct = Ok c ->
              (forall v, lookup "type" c = Some v -> In v schema_types)
              /\ (forall v, lookup "format" c = Some v -> In v schema_formats)));
    intros; simpl in *;
    repeat match goal with
           | H : Ok _ = Ok _ |- _ => injection H as <-
           | H : Err _ = Ok _ |- _ => discriminate H
           | H : bind ?m _ = Ok _ |- _ => destruct m; simpl in H
           end;
    try (split; intros v Hv; cbn in Hv; try discriminate; injection Hv as <-;
         unfold schema_types, schema_formats; simpl; tauto);
    auto.
  destruct p; simpl in *; try discriminate;
    match goal with H : Ok _ = Ok _ |- _ => injection H as <- end;
    split; intros v Hv; cbn in Hv; try discriminate; injection Hv as <-;
    unfold schema_types, schema_formats; simpl; tauto.
Qed.

(** X13: with no auth schemes, [constructSecuritySchemes] gives the empty
    object whatever the requirement mode, an unknown one included; the
    [all] mode gives one empty requirement object (OpenAPI's "no
    authentication"), the [any] mode no requirement at all, and an unknown
    mode makes [constructEndpointSecurity] fail. *)
Theorem auth_no_schemes (tag : string) :
  (forall m, constructSecuritySchemes {| requirement := m; schemes := [] |} = Ok [])
  /\ constructEndpointSecurity {| requirement := ALL; schemes := [] |} = Ok [[]]
  /\ constructEndpointSecurity {| requirement := ANY; schemes := [] |} = Ok []
  /\ constructEndpointSecurity
       {| requirement := AuthSchemesRequirement_unknown tag; schemes := [] |}
     = Err ("Unknown auth scheme requiremen: " ++ tag).
Proof. repeat split. Qed.

Lemma concat_cons (sep x : string) (l : list string) :
  l <> [] -> String.concat sep (x :: l) = (x ++ sep ++ String.concat sep l)%string.
Proof. destruct l; [contradiction|reflexivity]. Qed.

Lemma concat_merge_last (sep a b : string) (l : list string) :
  String.concat sep (l ++ [a; b])%list = String.concat sep (l ++ [(a ++ sep ++ b)%string])%list.
Proof.
  induction l as [|x t IH]; [reflexivity|].
  simpl app. rewrite !concat_cons by (destruct t; discriminate). rewrite IH. reflexivity.
Qed.

(** X14: the boundary between the last path segment and the leaf name is
    invisible to name resolution: moving the segment into the leaf name,
    joined by a space, gives the same schema name and reference. *)
Theorem name_segment_boundary (p : list string) (x y : string) :
  getNameFromDeclaredTypeName {| fernFilepath := (p ++ [x])%list; name := y |}
  = getNameFromDeclaredTypeName {| fernFilepath := p; name := x ++ " " ++ y |}
  /\ getReferenceFromDeclaredTypeName {| fernFilepath := (p ++ [x])%list; name := y |}
     = getReferenceFromDeclaredTypeName {| fernFilepath := p; name := x ++ " " ++ y |}.
Proof.
  unfold getReferenceFromDeclaredTypeName, getNameFromDeclaredTypeName. simpl.
  rewrite <- app_assoc. simpl. rewrite concat_merge_last. split; reflexivity.
Qed.

Lemma to_upper_char_not_lower (c : ascii) : is_lower (to_upper_char c) = false.
Proof.
  destruct c as [b0 b1 b2 b3 b4 b5 b6 b7].
  destruct b0, b1, b2, b3, b4, b5, b6, b7; vm_compute; reflexivity.
Qed.

(** X15: a schema name never starts with a lower-case ASCII letter. *)
Theorem name_first_not_lower (d : DeclaredTypeName) :
  match getNameFromDeclaredTypeName d with
  | EmptyString => True
  | String c _ => is_lower c = false
  end.
Proof.
  unfold getNameFromDeclaredTypeName, upperFirst.
  destruct (list_ascii_of_string (camelCase _)) as [|c t]; simpl; [exact I|].
  apply to_upper_char_not_lower.
Qed.

(** X16: the [$ref] of a named reference points at the schema name
    [convertType] gives the declaration of that name. *)
Theorem named_ref_matches_schemaName (td : TypeDeclaration) (ct : ConvertedType)
  (H : convertType td = Ok ct) :
  convertTypeReference (TR_named (td_name td))
  = Ok [("$ref", JStr ("#/components/schemas/" ++ schemaName ct))].
Proof.
  unfold convertType in H.
  destruct (match shape td with
            | T_alias a => convertAlias a (docs_val (td_docs td))
            | T_enum e => convertEnum e (docs_val (td_docs td))
            | T_object o => convertObject o (docs_val (td_docs td))
            | T_union u => convertUnion u (docs_val (td_docs td))
            | T_other _ => Err ("Encountered unknown type: " ++ object_to_string)
            end); [|discriminate].
  simpl in H. injection H as <-. reflexivity.
Qed.

(** ** Instances of the further properties *)

Lemma convertAlias_appends_description_witness :
  convertTypeReference (aliasOf sample_alias)
    = Ok [("type", JStr "array"); ("items", JObj [("type", JStr "string")])]
  /\ convertAlias sample_alias (JStr "Tags")
     = Ok ([("type", JStr "array"); ("items", JObj [("type", JStr "string")])]
           ++ [("description", JStr "Tags")])%list.
Proof.
  assert (H : convertTypeReference (aliasOf sample_alias)
              = Ok [("type", JStr "array"); ("items", JObj [("type", JStr "string")])])
    by (vm_compute; reflexivity).
  split; [exact H|]. exact (convertAlias_appends_description _ _ _ H).
Defined.

Lemma convertTypeReference_ref_or_inline_witness :
  convertTypeReference (TR_container (CT_map TR_void (TR_named (dtn [] "dog"))))
    = Ok [("type", JStr "object");
          ("additionalProperties", JObj [("$ref", JStr "#/components/schemas/Dog")])]
  /\ (map fst [("type", JStr "object");
               ("additionalProperties", JObj [("$ref", JStr "#/components/schemas/Dog")])]
        = ["$ref"]
      \/ ~ In "$ref" (map fst [("type", JStr "object");
                               ("additionalProperties",
                                JObj [("$ref", JStr "#/components/schemas/Dog")])])).
Proof.
  assert (H : convertTypeReference (TR_container (CT_map TR_void (TR_named (dtn [] "dog"))))
              = Ok [("type", JStr "object");
                    ("additionalProperties", JObj [("$ref", JStr "#/components/schemas/Dog")])])
    by (vm_compute; reflexivity).
  split; [exact H|]. exact (convertTypeReference_ref_or_inline _ _ H).
Defined.

Lemma convertSingleUnionType_ignores_value_witness :
  su_valueType {| discriminantValue := "count"; su_valueType := TR_primitive INTEGER |}
    = su_valueType {| discriminantValue := "total"; su_valueType := TR_primitive INTEGER |}
  /\ (forall n, TR_primitive INTEGER <> TR_named n)
  /\ convertSingleUnionType "type"
       {| discriminantValue := "count"; su_valueType := TR_primitive INTEGER |}
     = convertSingleUnionType "type"
         {| discriminantValue := "total"; su_valueType := TR_primitive INTEGER |}.
Proof.
  assert (Hty : su_valueType {| discriminantValue := "count"; su_valueType := TR_primitive INTEGER |}
                = su_valueType {| discriminantValue := "total"; su_valueType := TR_primitive INTEGER |})
    by reflexivity.
  assert (Hnn : forall n, su_valueType {| discriminantValue := "count";
                                          su_valueType := TR_primitive INTEGER |}
                          <> TR_named n)
    by (intros n; simpl; discriminate).
  split; [exact Hty|]. split; [exact Hnn|].
  exact (convertSingleUnionType_ignores_value _ _ _ Hty Hnn).
Defined.

Lemma convertObject_required_in_properties_witness :
  exists r, convertObject proto_key_object JUndef = Ok r
    /\ exists P R,
         lookup "properties" r = Some (JObj P)
         /\ lookup "required" r = Some (JArr (map JStr R))
         /\ forall k, In k R -> k = "__proto__" \/ lookup k P <> None.
Proof.
  eexists. split; [vm_compute; reflexivity|].
  apply (convertObject_required_in_properties proto_key_object JUndef).
  vm_compute. reflexivity.
Defined.

Lemma constructSecuritySchemes_last_wins_witness :
  mapM getNameForAuthScheme (schemes colliding_auth) = Ok ["BearerAuth"; "BearerAuth"]
  /\ mapM securitySchemeObject (schemes colliding_auth)
     = Ok [[("type", JStr "http"); ("scheme", JStr "bearer")];
           [("type", JStr "apiKey"); ("in", JStr "header"); ("name", JStr "X-Api-Key")]]
  /\ (exists R, constructSecuritySchemes colliding_auth = Ok R
        /\ forall k, lookup k R
                     = last_binding k
                         (combine ["BearerAuth"; "BearerAuth"]
                            [[("type", JStr "http"); ("scheme", JStr "bearer")];
                             [("type", JStr "apiKey"); ("in", JStr "header");
                              ("name", JStr "X-Api-Key")]]))
  /\ constructSecuritySchemes colliding_auth
     = Ok [("BearerAuth", JObj [("type", JStr "apiKey"); ("in", JStr "header");
                                ("name", JStr "X-Api-Key")])].
Proof.
  assert (Hn : mapM getNameForAuthScheme (schemes colliding_auth)
               = Ok ["BearerAuth"; "BearerAuth"]) by (vm_compute; reflexivity).
  assert (Ho : mapM securitySchemeObject (schemes colliding_auth)
               = Ok [[("type", JStr "http"); ("scheme", JStr "bearer")];
                     [("type", JStr "apiKey"); ("in", JStr "header");
                      ("name", JStr "X-Api-Key")]]) by (vm_compute; reflexivity).
  split; [exact Hn|]. split; [exact Ho|]. split.
  - exact (constructSecuritySchemes_last_wins _ _ _ Hn Ho).
  - vm_compute. reflexivity.
Defined.

Lemma constructSecuritySchemes_in_order_witness :
  mapM getNameForAuthScheme (schemes sample_auth) = Ok ["BearerAuth"; "BasicAuth"]
  /\ mapM securitySchemeObject (schemes sample_auth)
     = Ok [[("type", JStr "http"); ("scheme", JStr "bearer")];
           [("type", JStr "http"); ("scheme", JStr "basic")]]
  /\ NoDup ["BearerAuth"; "BasicAuth"]
  /\ constructSecuritySchemes sample_auth
     = Ok (map (fun p => (fst p, JObj (snd p)))
               (combine ["BearerAuth"; "BasicAuth"]
                        [[("type", JStr "http"); ("scheme", JStr "bearer")];
                         [("type", JStr "http"); ("scheme", JStr "basic")]])).
Proof.
  assert (Hn : mapM getNameForAuthScheme (schemes sample_auth)
               = Ok ["BearerAuth"; "BasicAuth"]) by (vm_compute; reflexivity).
  assert (Ho : mapM securitySchemeObject (schemes sample_auth)
               = Ok [[("type", JStr "http"); ("scheme", JStr "bearer")];
                     [("type", JStr "http"); ("scheme", JStr "basic")]])
    by (vm_compute; reflexivity).
  assert (Hnd : NoDup ["BearerAuth"; "BasicAuth"]).
  { constructor; [simpl; intros [H|[]]; discriminate H|].
    constructor; [simpl; tauto|constructor]. }
  split; [exact Hn|]. split; [exact Ho|]. split; [exact Hnd|].
  exact (constructSecuritySchemes_in_order _ _ _ Hn Ho Hnd).
Defined.

Lemma endpoint_security_names_declared_schemes_witness :
  mapM getNameForAuthScheme (schemes sample_auth) = Ok ["BearerAuth"; "BasicAuth"]
  /\ exists SS, constructSecuritySchemes sample_auth = Ok SS
    /\ (forall reqs R k, constructEndpointSecurity sample_auth = Ok reqs -> In R reqs ->
          lookup k R <> None -> lookup k SS <> None)
    /\ (requirement sample_auth = ALL -> exists R, constructEndpointSecurity sample_auth = Ok [R]
          /\ forall k, lookup k R <> None <-> lookup k SS <> None).
Proof.
  assert (Hn : mapM getNameForAuthScheme (schemes sample_auth)
               = Ok ["BearerAuth"; "BasicAuth"]) by (vm_compute; reflexivity).
  split; [exact Hn|]. exact (endpoint_security_names_declared_schemes _ _ Hn).
Defined.

Lemma convertObject_required_exact_witness :
  exists r, convertObject duplicate_key_object JUndef = Ok r
    /\ lookup "required" r
       = Some (JArr (map JStr (map key (filter (fun p => negb (isOptionalProperty (valueType p)))
                                               (properties duplicate_key_object)))))
    /\ lookup "required" r = Some (JArr [JStr "a"; JStr "a"]).
Proof.
  eexists. split; [vm_compute; reflexivity|]. split.
  - apply (convertObject_required_exact duplicate_key_object JUndef). vm_compute. reflexivity.
  - vm_compute. reflexivity.
Defined.

Lemma convertObject_property_last_wins_witness :
  exists r, convertObject duplicate_key_object JUndef = Ok r
    /\ "a" <> "__proto__"
    /\ (exists P, lookup "properties" r = Some (JObj P)
          /\ lookup "a" P
             = match last_property "a" (properties duplicate_key_object) with
               | Some p => match convertTypeReference (valueType p) with
                           | Ok c => Some (described c (docs_val (docs p)))
                           | Err _ => None
                           end
               | None => None
               end)
    /\ last_property "a" (properties duplicate_key_object)
       = Some (prop "a" (TR_primitive INTEGER)).
Proof.
  eexists. split; [vm_compute; reflexivity|].
  assert (Hk : "a" <> "__proto__") by discriminate.
  split; [exact Hk|]. split.
  - apply (convertObject_property_last_wins duplicate_key_object JUndef _ "a"); [|exact Hk].
    vm_compute. reflexivity.
  - vm_compute. reflexivity.
Defined.

Lemma convertUnion_proto_discriminant_witness :
  exists r, discriminant proto_union = "__proto__"
    /\ convertUnion proto_union JUndef = Ok r
    /\ exists vs, r = [("oneOf", JArr (map JObj vs)); ("description", JUndef)]
      /\ length vs = length (types proto_union)
      /\ Forall (fun v =>
           v = [("type", JStr "object"); ("properties", JObj [])]
           \/ exists n, v = [("type", JStr "object");
                             ("allOf", JArr [refObject n;
                                             JObj [("type", JStr "object");
                                                   ("properties", JObj [])]])]) vs.
Proof.
  assert (Hd : discriminant proto_union = "__proto__") by reflexivity.
  eexists. split; [exact Hd|]. split; [vm_compute; reflexivity|].
  apply (convertUnion_proto_discriminant proto_union JUndef _ Hd). vm_compute. reflexivity.
Defined.

Lemma convertTypeReference_type_format_witness :
  convertTypeReference (TR_primitive DATE_TIME)
    = Ok [("type", JStr "string"); ("format", JStr "date-time")]
  /\ (forall v, lookup "type" [("type", JStr "string"); ("format", JStr "date-time")] = Some v
                -> In v schema_types)
  /\ (forall v, lookup "format" [("type", JStr "string"); ("format", JStr "date-time")] = Some v
                -> In v schema_formats).
Proof.
  assert (H : convertTypeReference (TR_primitive DATE_TIME)
              = Ok [("type", JStr "string"); ("format", JStr "date-time")]) by reflexivity.
  split; [exact H|]. exact (convertTypeReference_type_format _ _ H).
Defined.

Lemma named_ref_matches_schemaName_witness :
  convertType sample_declaration
    = Ok {| openApiSchema := [("type", JStr "object"); ("description", JStr "A user");
                              ("properties",
                               JObj [("id", JObj [("type", JStr "string");
                                                  ("description", JUndef)]);
                                     ("note", JObj [("type", JStr "string");
                                                    ("description", JUndef)])]);
                              ("required", JArr [JStr "id"]);
                              ("allOf", JArr [JObj [("$ref", JStr "#/components/schemas/CoreA")];
                                              JObj [("$ref", JStr "#/components/schemas/CoreB")]])];
            schemaName := "CoreModelsUser" |}
  /\ convertTypeReference (TR_named (td_name sample_declaration))
     = Ok [("$ref", JStr ("#/components/schemas/" ++ "CoreModelsUser"))].
Proof.
  assert (H : convertType sample_declaration
    = Ok {| openApiSchema := [("type", JStr "object"); ("description", JStr "A user");
                              ("properties",
                               JObj [("id", JObj [("type", JStr "string");
                                                  ("description", JUndef)]);
                                     ("note", JObj [("type", JStr "string");
                                                    ("description", JUndef)])]);
                              ("required", JArr [JStr "id"]);
                              ("allOf", JArr [JObj [("$ref", JStr "#/components/schemas/CoreA")];
                                              JObj [("$ref", JStr "#/components/schemas/CoreB")]])];
            schemaName := "CoreModelsUser" |}) by (vm_compute; reflexivity).
  split; [exact H|]. exact (named_ref_matches_schemaName _ _ H).
Defined.
